(** * CountriesDB validator (Go): a shallow embedding and its contract

    The Go package [validator] is a thin HTTP client: four public methods
    build a JSON payload and hand it to one private helper, [post].  This
    file embeds [types.go] and [validator.go] and proves the properties of
    the client's contract.

    Conventions of the embedding:
    - a Go [string] is a [string] of bytes, [len] is [String.length];
    - a Go [error] is its text, a nilable error is an [option];
    - a [[]string] is a reference into a heap of backing arrays, so that
      writes through the slice are seen by whoever holds the same slice;
    - the methods run in a state monad over a [World] holding that heap and
      two logs (calls of [post], requests handed to the HTTP client); a run
      that would panic in Go yields [None];
    - what the package calls into but does not define (the HTTP client, the
      JSON decoder, URL parsing, the Unicode case tables) is taken from the
      environment: the client is a field of [Validator], a response body is
      given by what the decoder makes of it, the rest is a [GoRuntime]. *)

From Stdlib Require Import ZArith String Ascii DecimalString DecimalPos DecimalZ.
From stdpp Require Import gmap strings list fin_maps.

Open Scope string_scope.
Open Scope list_scope.

(** ** Errors and zero values *)

Definition error := string.

Class Zero (T : Type) := zero : T.

(** ** types.go *)

Record ValidationResult := {
  Valid : bool;
  Message : string;
  Code : string
}.

Record CountryOptions := { FollowUpward : bool }.

Record SubdivisionOptions := {
  FollowRelated : bool;
  AllowParentSelection : bool
}.

(** A slice of values that nobody writes through: [NilSlice] is Go's [nil],
    [Slice []] an empty slice that is not nil. *)
Inductive goslice (T : Type) :=
  | NilSlice
  | Slice (elems : list T).
Arguments NilSlice {T}.
Arguments Slice {T} elems.

Record multiResult := { Results : goslice ValidationResult }.

Record apiError := { apiError_Message : string }.

#[global] Instance ValidationResult_zero : Zero ValidationResult :=
  {| Valid := false; Message := ""; Code := "" |}.
#[global] Instance multiResult_zero : Zero multiResult :=
  {| Results := NilSlice |}.
#[global] Instance apiError_zero : Zero apiError :=
  {| apiError_Message := "" |}.

(** ** The standard library the client calls into *)

(** [url_Parse] is [net/url.Parse] as [http.NewRequestWithContext] uses it
    ([None]: the URL parses).  [unicode_Map_ToUpper] is
    [strings.Map(unicode.ToUpper, s)], the path [strings.ToUpper] takes on a
    string with a byte outside ASCII. *)
Class GoRuntime := {
  url_Parse : string -> option error;
  unicode_Map_ToUpper : string -> string
}.

(** *** strings.ToUpper *)

Definition RuneSelf : nat := 128.

Fixpoint isASCII (s : string) : bool :=
  match s with
  | EmptyString => true
  | String c s' => (nat_of_ascii c <? RuneSelf)%nat && isASCII s'
  end.

Definition is_lower (c : ascii) : bool :=
  (97 <=? nat_of_ascii c)%nat && (nat_of_ascii c <=? 122)%nat.

Fixpoint hasLower (s : string) : bool :=
  match s with
  | EmptyString => false
  | String c s' => is_lower c || hasLower s'
  end.

(** [c -= 'a' - 'A'] on a lower-case byte, any other byte is kept. *)
Definition upper_byte (c : ascii) : ascii :=
  if is_lower c then ascii_of_nat (nat_of_ascii c - 32) else c.

Fixpoint map_bytes (f : ascii -> ascii) (s : string) : string :=
  match s with
  | EmptyString => EmptyString
  | String c s' => String (f c) (map_bytes f s')
  end.

Definition ToUpper `{GoRuntime} (s : string) : string :=
  if isASCII s then
    if hasLower s then map_bytes upper_byte s else s
  else unicode_Map_ToUpper s.

(** *** fmt's [%d] *)

Definition fmt_d (n : Z) : string := NilZero.string_of_int (Z.to_int n).

(** ** Memory: backing arrays of [[]string] slices *)

Definition loc := nat.

(** A [[]string]: [nil], or the whole of the array at [l]. *)
Inductive strslice :=
  | nil_strs
  | strs_at (l : loc).

(** ** Payloads and JSON documents *)

(** The values a [map[string]any] payload of this package holds. *)
Inductive PVal :=
  | PString (s : string)
  | PBool (b : bool)
  | PStrings (s : strslice).

(** What [json.Marshal] writes for them; the request body is kept as the
    document rather than as its bytes. *)
Inductive json :=
  | JNull
  | JString (s : string)
  | JBool (b : bool)
  | JStrings (l : list string).

(** ** HTTP *)

Inductive Context :=
  | nilContext
  | Ctx (done : option error).

Record Request := {
  req_ctx : Context;
  Method : string;
  URL : string;
  Header : gmap string string;
  req_body : gmap string json
}.

(** A response body, through the decoder: for each destination type, the
    value [json.NewDecoder(body).Decode(&x)] leaves in [x] (from the value
    [x] held before) and the error it returns. *)
Record Body := {
  decode_apiError : apiError -> apiError * option error;
  decode_ValidationResult : ValidationResult -> ValidationResult * option error;
  decode_multiResult : multiResult -> multiResult * option error
}.

Class Decodable (T : Type) := json_Decode : Body -> T -> T * option error.

#[global] Instance apiError_Decodable : Decodable apiError := decode_apiError.
#[global] Instance ValidationResult_Decodable : Decodable ValidationResult :=
  decode_ValidationResult.
#[global] Instance multiResult_Decodable : Decodable multiResult :=
  decode_multiResult.

Record Response := {
  StatusCode : Z;
  resp_Body : Body
}.

(** [httpClient.Do(req)]: a response, or an error (no connection, the
    context cancelled or past its deadline, ...). *)
Inductive DoResult :=
  | DoResponse (resp : Response)
  | DoError (err : error).

Record Validator := {
  apiKey : string;
  baseURL : string;
  httpClient : Request -> DoResult
}.

(** ** The world and the monad *)

Record World := {
  heap : gmap loc (list string);
  posts : list (string * gmap string PVal);
  sent : list Request
}.

Definition M (A : Type) : Type := World -> option (A * World).

Definition ret {A} (a : A) : M A := fun w => Some (a, w).

Definition bind {A B} (m : M A) (k : A -> M B) : M B :=
  fun w => match m w with
           | Some (a, w') => k a w'
           | None => None
           end.

Notation "x <~ m ;; k" := (bind m (fun x => k))
  (at level 100, m at next level, right associativity).

Definition with_heap (h : gmap loc (list string)) (w : World) : World :=
  {| heap := h; posts := posts w; sent := sent w |}.

(** The elements of a slice, as the heap has them. *)
Definition elems_of (h : gmap loc (list string)) (s : strslice) : list string :=
  match s with
  | nil_strs => []
  | strs_at l => default [] (h !! l)
  end.

(** [len(s)] *)
Definition len (s : strslice) : M nat :=
  fun w => Some (length (elems_of (heap w) s), w).

(** [s[i]]: panics out of range. *)
Definition index (s : strslice) (i : nat) : M string :=
  fun w => match elems_of (heap w) s !! i with
           | Some x => Some (x, w)
           | None => None
           end.

(** [s[i] = x]: panics out of range. *)
Definition store (s : strslice) (i : nat) (x : string) : M unit :=
  fun w => match s with
           | nil_strs => None
           | strs_at l =>
               match heap w !! l with
               | Some a =>
                   if decide (i < length a)%nat
                   then Some (tt, with_heap (<[l := <[i := x]> a]> (heap w)) w)
                   else None
               | None => None
               end
           end.

(** [make([]string, n)]: a new array of [n] empty strings. *)
Definition make (n : nat) : M strslice :=
  fun w => let l := fresh (dom (heap w)) in
           Some (strs_at l, with_heap (<[l := replicate n ""]> (heap w)) w).

(** [for i, x := range s { body }], the length being read once; a body
    yielding [Some r] is a [return r] out of the enclosing function. *)
Fixpoint range_from {R} (s : strslice) (i n : nat)
    (body : nat -> string -> M (option R)) : M (option R) :=
  match n with
  | O => ret None
  | S n' =>
      x <~ index s i ;;
      r <~ body i x ;;
      match r with
      | Some v => ret (Some v)
      | None => range_from s (S i) n' body
      end
  end.

Definition for_range {R} (s : strslice)
    (body : nat -> string -> M (option R)) : M (option R) :=
  n <~ len s ;; range_from s 0 n body.

(** ** validator.go *)

(** [json.Marshal(payload)] for the payloads of this package: strings,
    booleans and string slices always marshal, so the error is [nil]; a
    slice is read from the heap when the payload is marshalled. *)
Definition marshal_value (h : gmap loc (list string)) (v : PVal) : json :=
  match v with
  | PString s => JString s
  | PBool b => JBool b
  | PStrings nil_strs => JNull
  | PStrings s => JStrings (elems_of h s)
  end.

Definition json_Marshal (payload : gmap string PVal)
    : M (gmap string json * option error) :=
  fun w => Some ((marshal_value (heap w) <$> payload, None), w).

Definition MethodPost : string := "POST".

(** [http.NewRequestWithContext(ctx, http.MethodPost, url, body)]: the
    method is valid, so the request is refused for a nil context or a URL
    that does not parse. *)
Definition NewRequestWithContext `{GoRuntime} (ctx : Context)
    (method url : string) (body : gmap string json) : Request + error :=
  match ctx with
  | nilContext => inr "net/http: nil Context"
  | Ctx _ =>
      match url_Parse url with
      | Some e => inr e
      | None => inl {| req_ctx := ctx; Method := method; URL := url;
                       Header := ∅; req_body := body |}
      end
  end.

Definition Header_Set (req : Request) (k v : string) : Request :=
  {| req_ctx := req_ctx req; Method := Method req; URL := URL req;
     Header := <[k := v]> (Header req); req_body := req_body req |}.

(** [v.httpClient.Do(req)], the request being recorded in [sent]. *)
Definition Do (v : Validator) (req : Request) : M DoResult :=
  fun w => Some (httpClient v req,
                 {| heap := heap w; posts := posts w; sent := sent w ++ [req] |}).

(** Entering [post] is recorded in [posts]. *)
Definition enter_post (path : string) (payload : gmap string PVal) : M unit :=
  fun w => Some (tt, {| heap := heap w; posts := posts w ++ [(path, payload)];
                        sent := sent w |}).

(** [func (v *Validator) post(ctx, path, payload, out) error].  [out] is
    [None] for a nil [out] and [Some x] for a pointer to a variable holding
    [x]; what the variable holds afterwards is returned with the error.
    The deferred [resp.Body.Close()] changes nothing the world records. *)
Definition post `{GoRuntime} {T} `{Decodable T} (v : Validator) (ctx : Context)
    (path : string) (payload : gmap string PVal) (out : option T)
    : M (option T * option error) :=
  _ <~ enter_post path payload ;;
  m <~ json_Marshal payload ;;
  match m with
  | (_, Some err) => ret (out, Some err)
  | (body, None) =>
      match NewRequestWithContext ctx MethodPost (baseURL v +:+ path) body with
      | inr err => ret (out, Some err)
      | inl req =>
          let req := Header_Set req "Content-Type" "application/json" in
          let req := Header_Set req "Authorization" ("Bearer " +:+ apiKey v) in
          r <~ Do v req ;;
          match r with
          | DoError err => ret (out, Some err)
          | DoResponse resp =>
              if (400 <=? StatusCode resp)%Z then
                let (apiErr, err) := json_Decode (resp_Body resp) (zero : apiError) in
                if bool_decide (err ≠ None) || String.eqb (apiError_Message apiErr) ""
                then ret (out, Some ("countriesdb: http " +:+ fmt_d (StatusCode resp)))
                else ret (out, Some (apiError_Message apiErr))
              else
                match out with
                | None => ret (None, None)
                | Some x =>
                    let (x', err) := json_Decode (resp_Body resp) x in
                    ret (Some x', err)
                end
          end
      end
  end.

(** The variable behind a non-nil [out], after the call. *)
Definition deref {T} `{Zero T} (out : option T) : T := default zero out.

Definition invalid_country : ValidationResult :=
  {| Valid := false; Message := "Invalid country code."; Code := "" |}.

(** [ValidateCountry] validates a single country code. *)
Definition ValidateCountry `{GoRuntime} (v : Validator) (ctx : Context)
    (code : string) (opts : CountryOptions)
    : M (ValidationResult * option error) :=
  if negb (String.length code =? 2)%nat then ret (invalid_country, None)
  else
    r <~ post v ctx "/api/validate/country"
           {[ "code" := PString (ToUpper code);
              "follow_upward" := PBool (FollowUpward opts) ]}
           (Some (zero : ValidationResult)) ;;
    ret (deref (fst r), snd r).

Definition ErrCountryFormat : error :=
  "invalid country code format. All codes must be 2-character strings".

(** [ValidateCountries] validates multiple country codes. *)
Definition ValidateCountries `{GoRuntime} (v : Validator) (ctx : Context)
    (codes : strslice) (opts : CountryOptions)
    : M (goslice ValidationResult * option error) :=
  n <~ len codes ;;
  if (n =? 0)%nat then ret (Slice [], None)
  else
    early <~ for_range codes (fun i code =>
               if negb (String.length code =? 2)%nat
               then ret (Some (@NilSlice ValidationResult, Some ErrCountryFormat))
               else _ <~ store codes i (ToUpper code) ;; ret None) ;;
    match early with
    | Some r => ret r
    | None =>
        r <~ post v ctx "/api/validate/country"
               {[ "code" := PStrings codes;
                  "follow_upward" := PBool false ]}
               (Some (zero : multiResult)) ;;
        ret (Results (deref (fst r)), snd r)
    end.

(** [ValidateSubdivision] validates a single subdivision for a given country. *)
Definition ValidateSubdivision `{GoRuntime} (v : Validator) (ctx : Context)
    (code country : string) (opts : SubdivisionOptions)
    : M (ValidationResult * option error) :=
  if negb (String.length country =? 2)%nat then ret (invalid_country, None)
  else
    r <~ post v ctx "/api/validate/subdivision"
           {[ "code" := PString code;
              "country" := PString (ToUpper country);
              "follow_related" := PBool (FollowRelated opts);
              "allow_parent_selection" := PBool (AllowParentSelection opts) ]}
           (Some (zero : ValidationResult)) ;;
    ret (deref (fst r), snd r).

Definition ErrCountry : error := "invalid country code".

(** [ValidateSubdivisions] validates multiple subdivisions for the same
    country. *)
Definition ValidateSubdivisions `{GoRuntime} (v : Validator) (ctx : Context)
    (codes : strslice) (country : string) (opts : SubdivisionOptions)
    : M (goslice ValidationResult * option error) :=
  if negb (String.length country =? 2)%nat then ret (NilSlice, Some ErrCountry)
  else
    n <~ len codes ;;
    if (n =? 0)%nat then ret (Slice [], None)
    else
      payloadCodes <~ make n ;;
      _ <~ for_range (R := unit) codes (fun i code =>
             if String.eqb code ""
             then _ <~ store payloadCodes i "" ;; ret None
             else _ <~ store payloadCodes i code ;; ret None) ;;
      r <~ post v ctx "/api/validate/subdivision"
             {[ "code" := PStrings payloadCodes;
                "country" := PString (ToUpper country);
                "follow_related" := PBool false;
                "allow_parent_selection" := PBool (AllowParentSelection opts) ]}
             (Some (zero : multiResult)) ;;
      ret (Results (deref (fst r)), snd r).

(** ** Vocabulary of the statements *)

(** The request [post] hands to the client, when it gets that far. *)
Definition is_post_request (v : Validator) (path : string)
    (body : gmap string json) (req : Request) : Prop :=
  Method req = "POST" ∧ URL req = baseURL v +:+ path ∧ req_body req = body ∧
  Header req !! "Content-Type" = Some "application/json" ∧
  Header req !! "Authorization" = Some ("Bearer " +:+ apiKey v).

(** The request [post] builds for a marshalled payload, or the error that
    stops it before the client is called. *)
Definition post_request `{GoRuntime} (v : Validator) (ctx : Context)
    (path : string) (body : gmap string json) : Request + error :=
  match NewRequestWithContext ctx MethodPost (baseURL v +:+ path) body with
  | inl req =>
      inl (Header_Set (Header_Set req "Content-Type" "application/json")
             "Authorization" ("Bearer " +:+ apiKey v))
  | inr err => inr err
  end.

(** ** A sample environment, for the closed instances below *)

(** Every URL parses; the instances only upper-case ASCII strings, so the
    Unicode path is never taken there. *)
Definition sample_runtime : GoRuntime :=
  {| url_Parse := fun _ => None; unicode_Map_ToUpper := fun s => s |}.

(** A body holding the object [{valid: true, code: US}]: it decodes into a
    [ValidationResult], into an error envelope without a message, and into a
    batch envelope without results. *)
Definition sample_valid_body : Body :=
  {| decode_apiError := fun x => (x, None);
     decode_ValidationResult := fun x =>
       ({| Valid := true; Message := Message x; Code := "US" |}, None);
     decode_multiResult := fun x => (x, None) |}.

(** A body holding the error envelope [{message: not found}]. *)
Definition sample_error_body : Body :=
  {| decode_apiError := fun _ => ({| apiError_Message := "not found" |}, None);
     decode_ValidationResult := fun x =>
       ({| Valid := Valid x; Message := "not found"; Code := Code x |}, None);
     decode_multiResult := fun x => (x, None) |}.

(** An empty body: the decoder returns [io.EOF] and writes nothing. *)
Definition sample_empty_body : Body :=
  {| decode_apiError := fun x => (x, Some "EOF");
     decode_ValidationResult := fun x => (x, Some "EOF");
     decode_multiResult := fun x => (x, Some "EOF") |}.

(** A client that answers every request with the same response. *)
Definition sample_validator (status : Z) (body : Body) : Validator :=
  {| apiKey := "key";
     baseURL := "https://api.countriesdb.com";
     httpClient := fun _ => DoResponse {| StatusCode := status; resp_Body := body |} |}.

(** A client without a connection. *)
Definition offline_validator : Validator :=
  {| apiKey := "key";
     baseURL := "https://api.countriesdb.com";
     httpClient := fun _ => DoError "dial tcp: connection refused" |}.

Definition sample_world (codes : list string) : World :=
  {| heap := {[ 0%nat := codes ]}; posts := []; sent := [] |}.

(** ** Construction of a validator *)

(** What construction takes from the standard library beyond [GoRuntime]:
    the Unicode paths of [strings.TrimSpace]
    ([strings.TrimFunc(s, unicode.IsSpace)] and
    [strings.TrimRightFunc(s, unicode.IsSpace)]), the paths of
    [strings.TrimRight] for a cutset that is not one ASCII byte, and what
    [(&http.Client{Timeout: d}).Do] answers, [d] in nanoseconds. *)
Class GoLibrary := {
  TrimFunc_IsSpace : string -> string;
  TrimRightFunc_IsSpace : string -> string;
  TrimRight_cutset : string -> string -> string;
  http_Client_Do : Z -> Request -> DoResult
}.

(** *** strings.TrimSpace *)

(** The table [asciiSpace]: tab, line feed, vertical tab, form feed,
    carriage return, space. *)
Definition asciiSpace (c : ascii) : bool :=
  let n := nat_of_ascii c in
  (n =? 9)%nat || (n =? 10)%nat || (n =? 11)%nat || (n =? 12)%nat ||
  (n =? 13)%nat || (n =? 32)%nat.

(** The second loop of [TrimSpace], from the end of [s[start:]]: [r] is
    [s[start:stop]] reversed. *)
Fixpoint trim_stop `{GoLibrary} (r : list ascii) : string :=
  match r with
  | [] => EmptyString
  | c :: r' =>
      if (RuneSelf <=? nat_of_ascii c)%nat
      then TrimRightFunc_IsSpace (string_of_list_ascii (rev r))
      else if asciiSpace c then trim_stop r'
           else string_of_list_ascii (rev r)
  end.

(** The first loop of [TrimSpace], from the start of [s]. *)
Fixpoint TrimSpace `{GoLibrary} (s : string) : string :=
  match s with
  | EmptyString => EmptyString
  | String c s' =>
      if (RuneSelf <=? nat_of_ascii c)%nat then TrimFunc_IsSpace s
      else if asciiSpace c then TrimSpace s'
           else trim_stop (rev (list_ascii_of_string s))
  end.

(** *** strings.TrimRight *)

(** The loop of [trimRightByte]: [r] is [s] reversed. *)
Fixpoint trim_last (r : list ascii) (c : ascii) : list ascii :=
  match r with
  | [] => []
  | a :: r' => if Ascii.eqb a c then trim_last r' c else r
  end.

Definition trimRightByte (s : string) (c : ascii) : string :=
  string_of_list_ascii (rev (trim_last (rev (list_ascii_of_string s)) c)).

Definition TrimRight `{GoLibrary} (s cutset : string) : string :=
  match s, cutset with
  | EmptyString, _ => s
  | _, EmptyString => s
  | _, String c EmptyString =>
      if (nat_of_ascii c <? RuneSelf)%nat then trimRightByte s c
      else TrimRight_cutset s cutset
  | _, _ => TrimRight_cutset s cutset
  end.

(** *** Options and NewValidator *)

Definition defaultBaseURL : string := "https://api.countriesdb.com".

(** [time.Second], a [time.Duration] in nanoseconds. *)
Definition Second : Z := 1000000000.

(** [Option], a function on a pointer to a [Validator]: what the function
    does to the validator it is given.  An [Option] is a function, never
    nil. *)
Definition Option : Type := Validator -> Validator.

(** [WithBaseURL] overrides the default API base URL. *)
Definition WithBaseURL `{GoLibrary} (base : string) : Option :=
  fun v =>
    if negb (String.eqb base "")
    then {| apiKey := apiKey v; baseURL := TrimRight base "/";
            httpClient := httpClient v |}
    else v.

(** [WithHTTPClient] provides a custom [http.Client]; [h] is [None] for a
    nil pointer, and otherwise what [h.Do] answers. *)
Definition WithHTTPClient (h : option (Request -> DoResult)) : Option :=
  fun v =>
    match h with
    | Some client => {| apiKey := apiKey v; baseURL := baseURL v;
                        httpClient := client |}
    | None => v
    end.

(** [NewValidator] creates a CountriesDB validator. *)
Definition NewValidator `{GoLibrary} (key : string) (opts : list Option)
    : Validator + error :=
  if String.eqb (TrimSpace key) "" then inr "countriesdb: api key is required"
  else
    inl (fold_left (fun validator opt => opt validator) opts
           {| apiKey := key;
              baseURL := defaultBaseURL;
              httpClient := http_Client_Do (10 * Second) |}).

(** The options this package makes. *)
Definition package_option `{GoLibrary} (opt : Option) : Prop :=
  (∃ base, opt = WithBaseURL base) ∨ (∃ h, opt = WithHTTPClient h).

(** A string of [k] slashes. *)
Fixpoint slashes (k : nat) : string :=
  match k with
  | O => EmptyString
  | S k' => String "/" (slashes k')
  end.

(** Every byte of [s] is in [asciiSpace]. *)
Fixpoint all_asciiSpace (s : string) : bool :=
  match s with
  | EmptyString => true
  | String c s' => asciiSpace c && all_asciiSpace s'
  end.

(** [s] ends with the byte [c]. *)
Definition ends_with (s : string) (c : ascii) : Prop :=
  ∃ s', s = s' +:+ String c EmptyString.

(** The standard library of the closed instances: nothing there trims a
    string with a byte outside ASCII; the default client has no network. *)
Definition sample_library : GoLibrary :=
  {| TrimFunc_IsSpace := fun s => s;
     TrimRightFunc_IsSpace := fun s => s;
     TrimRight_cutset := fun s _ => s;
     http_Client_Do := fun _ _ => DoError "dial tcp: connection refused" |}.

(** A body holding a batch envelope with two results. *)
Definition sample_batch_body : Body :=
  {| decode_apiError := fun x => (x, None);
     decode_ValidationResult := fun x => (x, None);
     decode_multiResult := fun _ =>
       ({| Results := Slice [ {| Valid := true; Message := ""; Code := "US" |};
                              {| Valid := false; Message := "unknown"; Code := "ZZ" |} ] |},
        None) |}.



(** ** Properties *)

(** *** Upper-casing ASCII strings *)

Lemma upper_byte_idem c : upper_byte (upper_byte c) = upper_byte c.
Proof. destruct c as [[] [] [] [] [] [] [] []]; reflexivity. Qed.

Lemma upper_byte_ascii c :
  (nat_of_ascii (upper_byte c) <? RuneSelf)%nat = (nat_of_ascii c <? RuneSelf)%nat.
Proof. destruct c as [[] [] [] [] [] [] [] []]; reflexivity. Qed.

Lemma upper_byte_not_lower c : is_lower c = false -> upper_byte c = c.
Proof. unfold upper_byte. intros ->. reflexivity. Qed.

Lemma map_bytes_length f s : String.length (map_bytes f s) = String.length s.
Proof. induction s as [|c s IH]; simpl; [reflexivity | now rewrite IH]. Qed.

Lemma map_bytes_upper_idem s :
  map_bytes upper_byte (map_bytes upper_byte s) = map_bytes upper_byte s.
Proof.
  induction s as [|c s IH]; simpl; [reflexivity |].
  now rewrite upper_byte_idem, IH.
Qed.

Lemma map_bytes_upper_ascii s : isASCII (map_bytes upper_byte s) = isASCII s.
Proof.
  induction s as [|c s IH]; simpl; [reflexivity |].
  now rewrite upper_byte_ascii, IH.
Qed.

Lemma map_bytes_upper_no_lower s :
  hasLower s = false -> map_bytes upper_byte s = s.
Proof.
  induction s as [|c s IH]; simpl; [reflexivity |].
  intros [Hc Hs]%orb_false_iff.
  now rewrite upper_byte_not_lower, IH.
Qed.



(** *** The status in the generic error *)

(** [fmt_d] writes the decimal numeral of its argument: reading the text
    back gives the number. *)
Lemma fmt_d_reads_back n :
  option_map Z.of_int (NilZero.int_of_string (fmt_d n)) = Some n.
Proof.
  unfold fmt_d. rewrite NilZero.isi.
  - simpl. f_equal. apply DecimalZ.of_to.
  - destruct n; simpl; intros Hn; inversion Hn as [Hp].
    eapply DecimalPos.Unsigned.to_uint_nonnil. exact Hp.
  - destruct n; simpl; intros Hn; inversion Hn as [Hp].
    eapply DecimalPos.Unsigned.to_uint_nonnil. exact Hp.
Qed.

Section Contract.

Context `{rt : GoRuntime}.

Lemma ToUpper_ascii s : isASCII s = true -> ToUpper s = map_bytes upper_byte s.
Proof.
  intros Hs. unfold ToUpper. rewrite Hs.
  destruct (hasLower s) eqn:Hl; [reflexivity |].
  symmetry. now apply map_bytes_upper_no_lower.
Qed.

Lemma ToUpper_ascii_length s :
  isASCII s = true -> String.length (ToUpper s) = String.length s.
Proof. intros Hs. rewrite ToUpper_ascii by assumption. apply map_bytes_length. Qed.

Lemma ToUpper_ascii_isASCII s : isASCII s = true -> isASCII (ToUpper s) = true.
Proof.
  intros Hs. rewrite ToUpper_ascii by assumption.
  now rewrite map_bytes_upper_ascii.
Qed.

Lemma ToUpper_ascii_idem s :
  isASCII s = true -> ToUpper (ToUpper s) = ToUpper s.
Proof.
  intros Hs. rewrite (ToUpper_ascii (ToUpper s)) by now apply ToUpper_ascii_isASCII.
  rewrite ToUpper_ascii by assumption. apply map_bytes_upper_idem.
Qed.

(** *** The length test of the single-code methods *)

Lemma length_test_false s : String.length s ≠ 2%nat -> (String.length s =? 2)%nat = false.
Proof. intros Hs. now apply Nat.eqb_neq. Qed.

Lemma length_test_true s : String.length s = 2%nat -> (String.length s =? 2)%nat = true.
Proof. intros Hs. now apply Nat.eqb_eq. Qed.

(** *** Running the monad *)

Lemma bind_run {A B} (m : M A) (k : A -> M B) w a w' :
  m w = Some (a, w') -> bind m k w = k a w'.
Proof. unfold bind. intros ->. reflexivity. Qed.

Lemma elems_of_nonempty h s :
  elems_of h s ≠ [] -> ∃ l, s = strs_at l ∧ h !! l = Some (elems_of h s).
Proof.
  destruct s as [|l]; simpl; [congruence |].
  destruct (h !! l) as [a|] eqn:Hl; simpl; [| congruence].
  intros _. exists l. now rewrite Hl.
Qed.

(** A list with an element failing a decidable test splits at the first
    such element. *)
Lemma first_failure {A} (P : A -> Prop) `{∀ x, Decision (P x)} (xs : list A) :
  Exists (λ x, ¬ P x) xs ->
  ∃ good bad rest, xs = good ++ bad :: rest ∧ Forall P good ∧ ¬ P bad.
Proof.
  induction xs as [|x xs IH]; intros Hex; [inversion Hex |].
  destruct (decide (P x)) as [Hx | Hx].
  - destruct IH as (good & bad & rest & -> & Hgood & Hbad).
    { inversion Hex; subst; [contradiction | assumption]. }
    exists (x :: good), bad, rest. repeat split; [by constructor | assumption].
  - exists [], x, xs. repeat split; [constructor | assumption].
Qed.

Lemma range_from_step {R} s i n (body : nat -> string -> M (option R)) w :
  range_from s i (S n) body w =
    match index s i w with
    | Some (x, w1) =>
        match body i x w1 with
        | Some (Some v, w2) => Some (Some v, w2)
        | Some (None, w2) => range_from s (S i) n body w2
        | None => None
        end
    | None => None
    end.
Proof.
  simpl. unfold bind at 1. destruct (index s i w) as [[x w1]|]; [| reflexivity].
  unfold bind at 1. destruct (body i x w1) as [[[v|] w2]|]; reflexivity.
Qed.

Lemma index_run l a i x w :
  heap w !! l = Some a -> a !! i = Some x ->
  index (strs_at l) i w = Some (x, w).
Proof. intros Hl Hi. unfold index. simpl. rewrite Hl. simpl. now rewrite Hi. Qed.

Lemma store_run l a i x w :
  heap w !! l = Some a -> (i < length a)%nat ->
  store (strs_at l) i x w = Some (tt, with_heap (<[l := <[i := x]> a]> (heap w)) w).
Proof. intros Hl Hi. unfold store. rewrite Hl. now rewrite decide_True. Qed.

Lemma for_range_run {R} s (body : nat -> string -> M (option R)) w :
  for_range s body w = range_from s 0 (length (elems_of (heap w) s)) body w.
Proof. reflexivity. Qed.

Lemma len_run l a w : heap w !! l = Some a -> len (strs_at l) w = Some (length a, w).
Proof. intros Hl. unfold len. simpl. now rewrite Hl. Qed.

(** *** The loop of [ValidateCountries] *)

(** From index [length pre] on, with every remaining code of length 2, the
    loop runs to its end and has upper-cased each of them in the array. *)
Lemma upper_loop_through l suf : ∀ pre w,
  heap w !! l = Some (pre ++ suf) ->
  Forall (λ c, String.length c = 2%nat) suf ->
  range_from (strs_at l) (length pre) (length suf)
    (fun i code =>
       if negb (String.length code =? 2)%nat
       then ret (Some (@NilSlice ValidationResult, Some ErrCountryFormat))
       else _ <~ store (strs_at l) i (ToUpper code) ;; ret None) w
  = Some (None, with_heap (<[l := pre ++ (ToUpper <$> suf)]> (heap w)) w).
Proof.
  induction suf as [|c suf IH]; intros pre w Hheap Hall.
  - simpl. unfold ret. rewrite app_nil_r in *.
    rewrite insert_id by assumption. by destruct w.
  - apply Forall_cons in Hall as [Hc Hall].
    change (length (c :: suf)) with (S (length suf)). rewrite range_from_step.
    erewrite index_run; [| eassumption | by apply list_lookup_middle].
    cbv beta. rewrite length_test_true by assumption. cbn [negb].
    erewrite bind_run
      by (eapply store_run; [eassumption | rewrite length_app; simpl; lia]).
    unfold ret at 1.
    rewrite insert_app_r_alt by lia. rewrite Nat.sub_diag. simpl insert.
    specialize (IH (pre ++ [ToUpper c])
                  (with_heap (<[l := pre ++ ToUpper c :: suf]> (heap w)) w)).
    rewrite length_app, Nat.add_1_r in IH. rewrite IH.
    + simpl. rewrite insert_insert_eq, <- app_assoc. reflexivity.
    + simpl. rewrite lookup_insert_eq, <- app_assoc. reflexivity.
    + assumption.
Qed.

(** With a first code [bad] of another length, the loop returns the format
    error there, having upper-cased the codes before it. *)
Lemma upper_loop_stops l good : ∀ pre bad rest w,
  heap w !! l = Some (pre ++ good ++ bad :: rest) ->
  Forall (λ c, String.length c = 2%nat) good ->
  String.length bad ≠ 2%nat ->
  range_from (strs_at l) (length pre) (length (good ++ bad :: rest))
    (fun i code =>
       if negb (String.length code =? 2)%nat
       then ret (Some (@NilSlice ValidationResult, Some ErrCountryFormat))
       else _ <~ store (strs_at l) i (ToUpper code) ;; ret None) w
  = Some (Some (NilSlice, Some ErrCountryFormat),
          with_heap (<[l := pre ++ (ToUpper <$> good) ++ bad :: rest]> (heap w)) w).
Proof.
  induction good as [|c good IH]; intros pre bad rest w Hheap Hall Hbad.
  - change (length ([] ++ bad :: rest)) with (S (length rest)).
    rewrite range_from_step.
    erewrite index_run; [| eassumption | by apply list_lookup_middle].
    cbv beta. rewrite length_test_false by assumption. cbn [negb].
    unfold ret. simpl. rewrite insert_id by assumption. by destruct w.
  - apply Forall_cons in Hall as [Hc Hall].
    change (length ((c :: good) ++ bad :: rest))
      with (S (length (good ++ bad :: rest))).
    rewrite range_from_step.
    erewrite index_run; [| eassumption | by apply list_lookup_middle].
    cbv beta. rewrite length_test_true by assumption. cbn [negb].
    erewrite bind_run
      by (eapply store_run; [eassumption | rewrite length_app; simpl; lia]).
    unfold ret at 1.
    rewrite insert_app_r_alt by lia. rewrite Nat.sub_diag. simpl insert.
    specialize (IH (pre ++ [ToUpper c]) bad rest
                  (with_heap (<[l := pre ++ ToUpper c :: good ++ bad :: rest]> (heap w)) w)).
    rewrite length_app, Nat.add_1_r in IH. rewrite IH.
    + simpl. rewrite insert_insert_eq, <- app_assoc. reflexivity.
    + simpl. rewrite lookup_insert_eq, <- app_assoc. reflexivity.
    + assumption.
    + assumption.
Qed.

(** [ValidateCountries] up to its call of [post], on either path. *)
Lemma ValidateCountries_stops v ctx l opts good bad rest w :
  heap w !! l = Some (good ++ bad :: rest) ->
  Forall (λ c, String.length c = 2%nat) good ->
  String.length bad ≠ 2%nat ->
  ValidateCountries v ctx (strs_at l) opts w =
    Some ((NilSlice, Some ErrCountryFormat),
          with_heap (<[l := (ToUpper <$> good) ++ bad :: rest]> (heap w)) w).
Proof.
  intros Hheap Hgood Hbad. unfold ValidateCountries.
  erewrite bind_run by (apply len_run; eassumption).
  replace (length (good ++ bad :: rest) =? 0)%nat with false
    by (symmetry; apply Nat.eqb_neq; rewrite length_app; simpl; lia).
  match goal with
  | |- context [for_range ?s ?b] =>
      assert (Hloop : for_range s b w =
        Some (Some (NilSlice, Some ErrCountryFormat),
              with_heap (<[l := (ToUpper <$> good) ++ bad :: rest]> (heap w)) w))
  end.
  { rewrite for_range_run. simpl elems_of. rewrite Hheap. simpl default.
    apply (upper_loop_stops l good [] bad rest w); assumption. }
  erewrite bind_run by exact Hloop. reflexivity.
Qed.

Lemma ValidateCountries_through v ctx l opts xs w :
  heap w !! l = Some xs -> xs ≠ [] ->
  Forall (λ c, String.length c = 2%nat) xs ->
  ValidateCountries v ctx (strs_at l) opts w =
    (r <~ post v ctx "/api/validate/country"
            {[ "code" := PStrings (strs_at l); "follow_upward" := PBool false ]}
            (Some (zero : multiResult)) ;;
     ret (Results (deref (fst r)), snd r))
      (with_heap (<[l := ToUpper <$> xs]> (heap w)) w).
Proof.
  intros Hheap Hne Hall. unfold ValidateCountries.
  erewrite bind_run by (apply len_run; eassumption).
  replace (length xs =? 0)%nat with false
    by (symmetry; apply Nat.eqb_neq; destruct xs; [congruence | simpl; lia]).
  match goal with
  | |- context [for_range ?s ?b] =>
      assert (Hloop : for_range s b w =
        Some (None, with_heap (<[l := ToUpper <$> xs]> (heap w)) w))
  end.
  { rewrite for_range_run. simpl elems_of. rewrite Hheap. simpl default.
    apply (upper_loop_through l xs [] w); assumption. }
  erewrite bind_run by exact Hloop. reflexivity.
Qed.

(** *** The loop of [ValidateSubdivisions] *)

(** From index [length done] on, the loop copies the remaining codes of the
    array at [l] over the rest of the array at [l']. *)
Lemma copy_loop l l' todo : ∀ done filler w,
  l ≠ l' ->
  heap w !! l = Some (done ++ todo) ->
  heap w !! l' = Some (done ++ filler) ->
  length filler = length todo ->
  range_from (R := unit) (strs_at l) (length done) (length todo)
    (fun i code =>
       if String.eqb code ""
       then _ <~ store (strs_at l') i "" ;; ret None
       else _ <~ store (strs_at l') i code ;; ret None) w
  = Some (None, with_heap (<[l' := done ++ todo]> (heap w)) w).
Proof.
  induction todo as [|c todo IH]; intros done filler w Hne Hsrc Hdst Hlen.
  - destruct filler; [| discriminate]. simpl. unfold ret.
    rewrite insert_id by assumption. by destruct w.
  - destruct filler as [|f filler]; [discriminate |].
    change (length (c :: todo)) with (S (length todo)). rewrite range_from_step.
    erewrite index_run; [| eassumption | by apply list_lookup_middle].
    cbv beta.
    assert (Hstep :
      (if String.eqb c ""
       then _ <~ store (strs_at l') (length done) "" ;; ret (@None unit)
       else _ <~ store (strs_at l') (length done) c ;; ret None) w
      = Some (None, with_heap (<[l' := done ++ c :: filler]> (heap w)) w)).
    { assert (Hst : ∀ x, (_ <~ store (strs_at l') (length done) x ;; ret (@None unit)) w
                = Some (None, with_heap (<[l' := done ++ x :: filler]> (heap w)) w)).
      { intros x. erewrite bind_run
          by (eapply store_run; [eassumption | rewrite length_app; simpl; lia]).
        unfold ret. rewrite insert_app_r_alt by lia.
        rewrite Nat.sub_diag. reflexivity. }
      destruct (String.eqb c "") eqn:Hc; [| apply Hst].
      apply String.eqb_eq in Hc. subst c. apply Hst. }
    rewrite Hstep.
    specialize (IH (done ++ [c]) filler
                  (with_heap (<[l' := done ++ c :: filler]> (heap w)) w)).
    rewrite length_app, Nat.add_1_r in IH. rewrite IH.
    + simpl. rewrite insert_insert_eq, <- app_assoc. reflexivity.
    + assumption.
    + simpl. rewrite lookup_insert_ne by congruence.
      rewrite <- app_assoc. assumption.
    + simpl. rewrite lookup_insert_eq, <- app_assoc. reflexivity.
    + simpl in Hlen. lia.
Qed.

(** [ValidateSubdivisions] up to its call of [post]: the codes have been
    copied into a new array, at a location the heap did not have. *)
Lemma ValidateSubdivisions_through v ctx l country opts xs w :
  String.length country = 2%nat ->
  heap w !! l = Some xs -> xs ≠ [] ->
  ValidateSubdivisions v ctx (strs_at l) country opts w =
    (r <~ post v ctx "/api/validate/subdivision"
            {[ "code" := PStrings (strs_at (fresh (dom (heap w))));
               "country" := PString (ToUpper country);
               "follow_related" := PBool false;
               "allow_parent_selection" := PBool (AllowParentSelection opts) ]}
            (Some (zero : multiResult)) ;;
     ret (Results (deref (fst r)), snd r))
      (with_heap (<[fresh (dom (heap w)) := xs]> (heap w)) w).
Proof.
  intros Hlen Hheap Hne. unfold ValidateSubdivisions.
  rewrite length_test_true by assumption. cbn [negb].
  erewrite bind_run by (apply len_run; eassumption).
  replace (length xs =? 0)%nat with false
    by (symmetry; apply Nat.eqb_neq; destruct xs; [congruence | simpl; lia]).
  set (l' := fresh (dom (heap w))).
  assert (Hfresh : heap w !! l' = None).
  { apply not_elem_of_dom. apply is_fresh. }
  assert (Hll : l ≠ l') by (intros ->; congruence).
  erewrite bind_run by reflexivity. fold l'.
  match goal with
  | |- context [for_range ?s ?b] =>
      assert (Hloop : for_range s b
                (with_heap (<[l' := replicate (length xs) ""]> (heap w)) w) =
        Some (None, with_heap (<[l' := xs]> (heap w)) w))
  end.
  { rewrite for_range_run. simpl elems_of. simpl heap.
    rewrite lookup_insert_ne by congruence. rewrite Hheap. simpl default.
    rewrite (copy_loop l l' xs [] (replicate (length xs) "")).
    - simpl heap. rewrite insert_insert_eq. reflexivity.
    - assumption.
    - simpl. rewrite lookup_insert_ne by congruence. assumption.
    - simpl heap. rewrite lookup_insert_eq. reflexivity.
    - apply length_replicate. }
  erewrite bind_run by exact Hloop. reflexivity.
Qed.

(** *** What a call of [post] does to the world *)

(** [post] never panics, records its call, leaves the heap alone and hands
    at most one request to the client, whose body is the marshalled
    payload. *)
Lemma post_world {T} `{Decodable T} v ctx path payload (out : option T) w :
  ∃ r new,
    post v ctx path payload out w =
      Some (r, {| heap := heap w; posts := posts w ++ [(path, payload)];
                  sent := sent w ++ new |}) ∧
    (length new ≤ 1)%nat ∧
    Forall (is_post_request v path (marshal_value (heap w) <$> payload)) new.
Proof.
  unfold post, bind, enter_post, json_Marshal, NewRequestWithContext, Do, ret; simpl.
  destruct ctx as [|done].
  { exists (out, Some "net/http: nil Context"), []. rewrite app_nil_r. auto. }
  destruct (url_Parse (baseURL v +:+ path)) as [e|].
  { exists (out, Some e), []. rewrite app_nil_r. auto. }
  set (req := Header_Set (Header_Set _ _ _) _ _).
  assert (Hreq : is_post_request v path (marshal_value (heap w) <$> payload) req).
  { repeat split; reflexivity. }
  destruct (httpClient v req) as [resp|e].
  - destruct (400 <=? StatusCode resp)%Z.
    + destruct (json_Decode (resp_Body resp) zero) as [apiErr err].
      destruct (bool_decide (err ≠ None) || (apiError_Message apiErr =? ""))%string;
        eexists _, [req]; (split; [reflexivity | split; [simpl; lia | by constructor]]).
    + destruct out as [x|].
      * destruct (json_Decode (resp_Body resp) x) as [x' err].
        eexists _, [req]; (split; [reflexivity | split; [simpl; lia | by constructor]]).
      * eexists _, [req]; (split; [reflexivity | split; [simpl; lia | by constructor]]).
  - eexists _, [req]; (split; [reflexivity | split; [simpl; lia | by constructor]]).
Qed.

(** [post] once the client has answered the request. *)
Lemma post_answered {T} `{Decodable T} v ctx path payload (out : option T) w req :
  post_request v ctx path (marshal_value (heap w) <$> payload) = inl req ->
  post v ctx path payload out w =
    Some (match httpClient v req with
          | DoError err => (out, Some err)
          | DoResponse resp =>
              if (400 <=? StatusCode resp)%Z then
                if bool_decide ((decode_apiError (resp_Body resp) zero).2 ≠ None)
                   || String.eqb
                        (apiError_Message (decode_apiError (resp_Body resp) zero).1) ""
                then (out, Some ("countriesdb: http " +:+ fmt_d (StatusCode resp)))
                else (out, Some (apiError_Message
                                   (decode_apiError (resp_Body resp) zero).1))
              else
                match out with
                | None => (None, None)
                | Some x => (Some (json_Decode (resp_Body resp) x).1,
                             (json_Decode (resp_Body resp) x).2)
                end
          end,
          {| heap := heap w; posts := posts w ++ [(path, payload)];
             sent := sent w ++ [req] |}).
Proof.
  unfold post_request, post, bind, enter_post, json_Marshal, Do, ret; simpl.
  destruct (NewRequestWithContext _ _ _ _) as [req0|e]; [| discriminate].
  intros [= <-].
  destruct (httpClient v _) as [resp|e]; [| reflexivity].
  destruct (400 <=? StatusCode resp)%Z.
  - unfold json_Decode, apiError_Decodable.
    destruct (decode_apiError (resp_Body resp) zero) as [apiErr err]. simpl.
    destruct (bool_decide (err ≠ None) || (apiError_Message apiErr =? ""))%string;
      reflexivity.
  - destruct out as [x|]; [| reflexivity].
    destruct (json_Decode (resp_Body resp) x) as [x' err]. reflexivity.
Qed.

(** *** Empty batches *)

Lemma ValidateCountries_empty v ctx codes opts w :
  elems_of (heap w) codes = [] ->
  ValidateCountries v ctx codes opts w = Some ((Slice [], None), w).
Proof.
  intros Hempty. unfold ValidateCountries, bind, len. rewrite Hempty. reflexivity.
Qed.

Lemma ValidateSubdivisions_empty v ctx codes country opts w :
  String.length country = 2%nat ->
  elems_of (heap w) codes = [] ->
  ValidateSubdivisions v ctx codes country opts w = Some ((Slice [], None), w).
Proof.
  intros Hlen Hempty. unfold ValidateSubdivisions.
  rewrite length_test_true by assumption. simpl.
  unfold bind, len. rewrite Hempty. reflexivity.
Qed.

(** *** Malformed input: the local checks *)

(** C1. A code whose length is not 2 makes [ValidateCountry] return
    [{Valid: false, Message: "Invalid country code."}] and a nil error, for
    every validator, context and options; the world is left as it was, so
    [post] is not entered and no request reaches the client. *)
Theorem ValidateCountry_wrong_length v ctx code opts w :
  String.length code ≠ 2%nat ->
  ValidateCountry v ctx code opts w =
    Some (({| Valid := false; Message := "Invalid country code."; Code := "" |},
           None), w).
Proof.
  intros Hlen. unfold ValidateCountry.
  rewrite length_test_false by assumption. reflexivity.
Qed.

(** C3. A country whose length is not 2 makes [ValidateSubdivisions] return
    a nil slice and the error "invalid country code", whatever the codes
    (none included: the country is tested before the codes are counted) and
    without touching the world, where [ValidateSubdivision] on the same
    country returns a result with [Valid: false] and a nil error. *)
Theorem ValidateSubdivisions_wrong_country v ctx codes country opts w :
  String.length country ≠ 2%nat ->
  ValidateSubdivisions v ctx codes country opts w =
    Some ((NilSlice, Some "invalid country code"), w) ∧
  (elems_of (heap w) codes = [] ->
   ValidateSubdivisions v ctx codes country opts w ≠ Some ((Slice [], None), w)) ∧
  ∀ code,
    ValidateSubdivision v ctx code country opts w =
      Some (({| Valid := false; Message := "Invalid country code."; Code := "" |},
             None), w).
Proof.
  intros Hlen. unfold ValidateSubdivisions, ValidateSubdivision.
  rewrite length_test_false by assumption.
  split; [reflexivity | split; [intros _; discriminate | reflexivity]].
Qed.

(** C4. A country whose length is not 2 makes [ValidateSubdivision] return
    [{Valid: false, Message: "Invalid country code."}] and a nil error
    without touching the world; with a country of length 2 the subdivision
    code, whatever it is, goes into the payload as it was given, and into
    the body of the request when one is made. *)
Theorem ValidateSubdivision_code_unchecked v ctx code country opts w :
  (String.length country ≠ 2%nat ->
   ValidateSubdivision v ctx code country opts w =
     Some (({| Valid := false; Message := "Invalid country code."; Code := "" |},
            None), w)) ∧
  (String.length country = 2%nat ->
   ∃ r w' payload,
     ValidateSubdivision v ctx code country opts w = Some (r, w') ∧
     posts w' = posts w ++ [("/api/validate/subdivision", payload)] ∧
     payload !! "code" = Some (PString code) ∧
     ∀ req, req ∈ sent w' -> req ∉ sent w ->
            req_body req !! "code" = Some (JString code)).
Proof.
  split; intros Hlen; unfold ValidateSubdivision.
  - rewrite length_test_false by assumption. reflexivity.
  - rewrite length_test_true by assumption. simpl. unfold bind.
    match goal with
    | |- context [post v ctx ?p ?pl ?o w] =>
        destruct (post_world v ctx p pl o w) as (r & new & -> & _ & Hnew)
    end.
    eexists _, _, _. split; [reflexivity |]. simpl.
    split; [reflexivity |]. split; [reflexivity |].
    intros req [Hin | Hin]%elem_of_app Hnot; [contradiction |].
    rewrite Forall_forall in Hnew. destruct (Hnew req Hin) as (_ & _ & -> & _).
    reflexivity.
Qed.

(** C8. On an empty codes slice, nil or not, [ValidateCountries] returns an
    empty slice that is not nil and a nil error, and so does
    [ValidateSubdivisions] when the country has length 2; neither touches the
    world, so [post] is not entered and no request reaches the client. *)
Theorem empty_codes_empty_results v ctx codes country copts sopts w :
  elems_of (heap w) codes = [] ->
  ValidateCountries v ctx codes copts w = Some ((Slice [], None), w) ∧
  (String.length country = 2%nat ->
   ValidateSubdivisions v ctx codes country sopts w = Some ((Slice [], None), w)).
Proof.
  intros Hempty. split.
  - now apply ValidateCountries_empty.
  - intros Hlen. now apply ValidateSubdivisions_empty.
Qed.

(** *** The batch methods *)

(** The requests [post] has added carry the marshalled payload. *)
Lemma post_then {T} `{Decodable T} {B} v ctx path payload (out : option T)
    (k : option T * option error -> B) w :
  ∃ r new,
    (x <~ post v ctx path payload out ;; ret (k x)) w =
      Some (k r, {| heap := heap w; posts := posts w ++ [(path, payload)];
                    sent := sent w ++ new |}) ∧
    Forall (is_post_request v path (marshal_value (heap w) <$> payload)) new.
Proof.
  destruct (post_world v ctx path payload out w) as (r & new & Hpost & _ & Hnew).
  exists r, new. split; [| assumption].
  erewrite bind_run by exact Hpost. reflexivity.
Qed.

(** C2. When some code of the slice has a length other than 2 (so the slice
    is not empty), [ValidateCountries] returns a nil slice of results and the
    error "invalid country code format. All codes must be 2-character
    strings"; [post] has not been entered and no request has reached the
    client. *)
Theorem ValidateCountries_wrong_length v ctx codes opts w :
  Exists (λ c, String.length c ≠ 2%nat) (elems_of (heap w) codes) ->
  ∃ w',
    ValidateCountries v ctx codes opts w =
      Some ((NilSlice,
             Some "invalid country code format. All codes must be 2-character strings"),
            w') ∧
    posts w' = posts w ∧ sent w' = sent w.
Proof.
  intros Hex.
  destruct (elems_of_nonempty (heap w) codes) as (l & -> & Hheap).
  { intros Hnil. rewrite Hnil in Hex. inversion Hex. }
  destruct (first_failure (λ c, String.length c = 2%nat) _ Hex)
    as (good & bad & rest & Hsplit & Hgood & Hbad).
  rewrite Hsplit in Hheap.
  rewrite (ValidateCountries_stops v ctx l opts good bad rest w) by assumption.
  eexists. split; [reflexivity |]. split; reflexivity.
Qed.

(** C7. The batch methods put [false] under the traversal flags whatever the
    options say: [ValidateCountries] does not depend on its options at all
    and sends [follow_upward: false]; [ValidateSubdivisions] does not depend
    on [FollowRelated], sends [follow_related: false], and sends
    [AllowParentSelection] as the options have it. *)
Theorem batch_flags_disabled v ctx codes country copts sopts w :
  (∀ copts', ValidateCountries v ctx codes copts' w =
             ValidateCountries v ctx codes copts w) ∧
  (elems_of (heap w) codes ≠ [] ->
   Forall (λ c, String.length c = 2%nat) (elems_of (heap w) codes) ->
   ∃ r w',
     ValidateCountries v ctx codes copts w = Some (r, w') ∧
     posts w' = posts w ++
       [("/api/validate/country",
         {[ "code" := PStrings codes; "follow_upward" := PBool false ]})] ∧
     ∀ req, req ∈ sent w' -> req ∉ sent w ->
            req_body req !! "follow_upward" = Some (JBool false)) ∧
  (∀ fr, ValidateSubdivisions v ctx codes country
           {| FollowRelated := fr;
              AllowParentSelection := AllowParentSelection sopts |} w =
         ValidateSubdivisions v ctx codes country sopts w) ∧
  (String.length country = 2%nat ->
   elems_of (heap w) codes ≠ [] ->
   ∃ r w' payload,
     ValidateSubdivisions v ctx codes country sopts w = Some (r, w') ∧
     posts w' = posts w ++ [("/api/validate/subdivision", payload)] ∧
     payload !! "follow_related" = Some (PBool false) ∧
     payload !! "allow_parent_selection" =
       Some (PBool (AllowParentSelection sopts)) ∧
     ∀ req, req ∈ sent w' -> req ∉ sent w ->
            req_body req !! "follow_related" = Some (JBool false) ∧
            req_body req !! "allow_parent_selection" =
              Some (JBool (AllowParentSelection sopts))).
Proof.
  split; [reflexivity |]. split; [| split; [reflexivity |]].
  - intros Hne Hall.
    destruct (elems_of_nonempty (heap w) codes Hne) as (l & -> & Hheap).
    rewrite (ValidateCountries_through v ctx l copts _ w Hheap Hne Hall).
    match goal with
    | |- context [(x <~ post v ctx ?p ?pl ?o ;; ret (@?k x)) ?w1] =>
        destruct (post_then v ctx p pl o k w1) as (r & new & -> & Hnew)
    end.
    eexists _, _. split; [reflexivity |]. split; [reflexivity |].
    simpl. intros req [Hin | Hin]%elem_of_app Hnot; [contradiction |].
    rewrite Forall_forall in Hnew. destruct (Hnew req Hin) as (_ & _ & -> & _).
    rewrite lookup_fmap. reflexivity.
  - intros Hlen Hne.
    destruct (elems_of_nonempty (heap w) codes Hne) as (l & -> & Hheap).
    rewrite (ValidateSubdivisions_through v ctx l country sopts _ w Hlen Hheap Hne).
    match goal with
    | |- context [(x <~ post v ctx ?p ?pl ?o ;; ret (@?k x)) ?w1] =>
        destruct (post_then v ctx p pl o k w1) as (r & new & -> & Hnew)
    end.
    eexists _, _, _. split; [reflexivity |]. split; [reflexivity |].
    split; [reflexivity |]. split; [reflexivity |].
    simpl. intros req [Hin | Hin]%elem_of_app Hnot; [contradiction |].
    rewrite Forall_forall in Hnew. destruct (Hnew req Hin) as (_ & _ & -> & _).
    rewrite !lookup_fmap. split; reflexivity.
Qed.

(** C10. [ValidateCountries] writes through the caller's slice: when it
    stops at a code of another length, the codes before it are upper-cased
    in the caller's array although the call fails, and when every code has
    length 2 the whole array is upper-cased.  [ValidateSubdivisions] never
    writes through the caller's slice: on every path every array the heap
    had is as it was; and when the country has length 2 and there are
    codes, it makes a new array, at a location the heap did not have,
    copies the codes into it and hands that slice, not the caller's, to
    [post]. *)
Theorem codes_slice_written_or_copied v ctx codes country copts sopts w :
  (∀ good bad rest,
     elems_of (heap w) codes = good ++ bad :: rest ->
     Forall (λ c, String.length c = 2%nat) good ->
     String.length bad ≠ 2%nat ->
     ∃ e w',
       ValidateCountries v ctx codes copts w = Some ((NilSlice, Some e), w') ∧
       elems_of (heap w') codes = (ToUpper <$> good) ++ bad :: rest) ∧
  (elems_of (heap w) codes ≠ [] ->
   Forall (λ c, String.length c = 2%nat) (elems_of (heap w) codes) ->
   ∃ r w',
     ValidateCountries v ctx codes copts w = Some (r, w') ∧
     elems_of (heap w') codes = ToUpper <$> elems_of (heap w) codes) ∧
  (∃ r w',
     ValidateSubdivisions v ctx codes country sopts w = Some (r, w') ∧
     elems_of (heap w') codes = elems_of (heap w) codes ∧
     (∀ l, l ∈ dom (heap w) -> heap w' !! l = heap w !! l) ∧
     (posts w' = posts w ∨
      ∃ l' payload,
        posts w' = posts w ++ [("/api/validate/subdivision", payload)] ∧
        payload !! "code" = Some (PStrings (strs_at l')) ∧
        (l' ∉ dom (heap w)) ∧
        heap w' !! l' = Some (elems_of (heap w) codes))) ∧
  (String.length country = 2%nat ->
   elems_of (heap w) codes ≠ [] ->
   ∃ r w' l' payload,
     ValidateSubdivisions v ctx codes country sopts w = Some (r, w') ∧
     posts w' = posts w ++ [("/api/validate/subdivision", payload)] ∧
     payload !! "code" = Some (PStrings (strs_at l')) ∧
     (l' ∉ dom (heap w)) ∧ codes ≠ strs_at l' ∧
     heap w' !! l' = Some (elems_of (heap w) codes) ∧
     elems_of (heap w') codes = elems_of (heap w) codes ∧
     dom (heap w') = {[ l' ]} ∪ dom (heap w)).
Proof.
  split; [| split; [| split]].
  - intros good bad rest Hsplit Hgood Hbad.
    destruct (elems_of_nonempty (heap w) codes) as (l & -> & Hheap).
    { rewrite Hsplit. by destruct good. }
    rewrite Hsplit in Hheap.
    rewrite (ValidateCountries_stops v ctx l copts good bad rest w) by assumption.
    eexists _, _. split; [reflexivity |].
    simpl. rewrite lookup_insert_eq. reflexivity.
  - intros Hne Hall.
    destruct (elems_of_nonempty (heap w) codes Hne) as (l & -> & Hheap).
    rewrite (ValidateCountries_through v ctx l copts _ w Hheap Hne Hall).
    match goal with
    | |- context [(x <~ post v ctx ?p ?pl ?o ;; ret (@?k x)) ?w1] =>
        destruct (post_then v ctx p pl o k w1) as (r & new & -> & _)
    end.
    eexists _, _. split; [reflexivity |].
    simpl. rewrite lookup_insert_eq, Hheap. reflexivity.
  - destruct (decide (String.length country = 2%nat)) as [Hlen | Hlen].
    + destruct (decide (elems_of (heap w) codes = [])) as [Hnil | Hne].
      * rewrite ValidateSubdivisions_empty by assumption.
        eexists _, _. split; [reflexivity |]. auto.
      * destruct (elems_of_nonempty (heap w) codes Hne) as (l & -> & Hheap).
        rewrite (ValidateSubdivisions_through v ctx l country sopts _ w Hlen Hheap Hne).
        match goal with
        | |- context [(x <~ post v ctx ?p ?pl ?o ;; ret (@?k x)) ?w1] =>
            destruct (post_then v ctx p pl o k w1) as (r & new & -> & _)
        end.
        assert (Hfresh : fresh (dom (heap w)) ∉ dom (heap w)) by apply is_fresh.
        eexists _, _. split; [reflexivity |]. simpl.
        assert (Hother : ∀ l0, l0 ∈ dom (heap w) ->
                  <[fresh (dom (heap w)) := default [] (heap w !! l)]> (heap w) !! l0
                  = heap w !! l0).
        { intros l0 Hl0. apply lookup_insert_ne. congruence. }
        split; [| split; [assumption |]].
        -- rewrite Hother; [reflexivity |]. apply elem_of_dom. by rewrite Hheap.
        -- right. eexists _, _. split; [reflexivity |].
           split; [reflexivity |]. split; [assumption |].
           apply lookup_insert_eq.
    + unfold ValidateSubdivisions. rewrite length_test_false by assumption.
      eexists _, _. split; [reflexivity |]. auto.
  - intros Hlen Hne.
    destruct (elems_of_nonempty (heap w) codes Hne) as (l & -> & Hheap).
    rewrite (ValidateSubdivisions_through v ctx l country sopts _ w Hlen Hheap Hne).
    match goal with
    | |- context [(x <~ post v ctx ?p ?pl ?o ;; ret (@?k x)) ?w1] =>
        destruct (post_then v ctx p pl o k w1) as (r & new & -> & _)
    end.
    assert (Hfresh : fresh (dom (heap w)) ∉ dom (heap w)) by apply is_fresh.
    assert (Hl : l ∈ dom (heap w)) by (apply elem_of_dom; by rewrite Hheap).
    assert (Hll : l ≠ fresh (dom (heap w))) by congruence.
    eexists _, _, (fresh (dom (heap w))), _. split; [reflexivity |]. simpl.
    split; [reflexivity |]. split; [reflexivity |]. split; [assumption |].
    split; [congruence |]. split; [apply lookup_insert_eq |].
    split; [| apply dom_insert_L].
    rewrite lookup_insert_ne by congruence. reflexivity.
Qed.

(** *** Responses *)

(** C5. When the client answers the request of [post] with a status of 400
    or more, [post] returns an error and leaves [out] as it was: the
    message of the error envelope when the body decodes into one with a
    message that is not empty, and otherwise (the decoder fails, or the
    message is empty) "countriesdb: http " followed by a decimal numeral
    that reads back as the status. *)
Theorem post_error_status {T} `{Decodable T} v ctx path payload (out : option T)
    w req resp :
  post_request v ctx path (marshal_value (heap w) <$> payload) = inl req ->
  httpClient v req = DoResponse resp ->
  (400 <= StatusCode resp)%Z ->
  ∃ err w',
    post v ctx path payload out w = Some ((out, Some err), w') ∧
    (∀ apiErr,
       decode_apiError (resp_Body resp) zero = (apiErr, None) ->
       apiError_Message apiErr ≠ "" ->
       err = apiError_Message apiErr) ∧
    ((decode_apiError (resp_Body resp) zero).2 ≠ None ∨
     apiError_Message (decode_apiError (resp_Body resp) zero).1 = "" ->
     ∃ numeral,
       err = "countriesdb: http " +:+ numeral ∧
       option_map Z.of_int (NilZero.int_of_string numeral) =
         Some (StatusCode resp)).
Proof.
  intros Hreq Hresp Hstatus.
  rewrite (post_answered v ctx path payload out w req Hreq), Hresp.
  apply Z.leb_le in Hstatus. rewrite Hstatus.
  destruct (decode_apiError (resp_Body resp) zero) as [apiErr derr]. simpl.
  destruct (bool_decide (derr ≠ None) || (apiError_Message apiErr =? ""))%string
    eqn:Htest.
  - eexists _, _. split; [reflexivity |]. split.
    + intros apiErr' [= <- ->] Hmsg.
      apply orb_true_iff in Htest as [Hd | Hm].
      * apply bool_decide_eq_true in Hd. congruence.
      * apply String.eqb_eq in Hm. congruence.
    + intros _. eexists. split; [reflexivity | apply fmt_d_reads_back].
  - eexists _, _. split; [reflexivity |].
    apply orb_false_iff in Htest as [Hd Hm].
    apply bool_decide_eq_false in Hd. apply String.eqb_neq in Hm.
    split; [by intros apiErr' [= <- _] _ |].
    intros [Hd' | Hm']; [| contradiction].
    exfalso. apply Hd. exact Hd'.
Qed.

(** C6, as the code has it.  For a code of length 2 whose request reaches
    the client: on a response with a status below 400 (2xx responses among
    them) [ValidateCountry] returns what decoding the body into a zero
    [ValidationResult] gives, so the decoded result and a nil error when the
    body decodes; on a response with a status of 400 or more, and on an
    error of the client (no connection, cancellation, timeout), it returns
    an error and the zero result. *)
Theorem ValidateCountry_outcome v ctx code opts w req :
  String.length code = 2%nat ->
  post_request v ctx "/api/validate/country"
    (marshal_value (heap w) <$>
       {[ "code" := PString (ToUpper code);
          "follow_upward" := PBool (FollowUpward opts) ]}) = inl req ->
  ∃ w',
    (∀ resp, httpClient v req = DoResponse resp ->
       (StatusCode resp < 400)%Z ->
       ValidateCountry v ctx code opts w =
         Some (decode_ValidationResult (resp_Body resp) zero, w')) ∧
    (∀ resp, httpClient v req = DoResponse resp ->
       (400 <= StatusCode resp)%Z ->
       ∃ e, ValidateCountry v ctx code opts w = Some ((zero, Some e), w')) ∧
    (∀ e, httpClient v req = DoError e ->
       ValidateCountry v ctx code opts w = Some ((zero, Some e), w')).
Proof.
  intros Hlen Hreq. unfold ValidateCountry.
  rewrite length_test_true by assumption. cbn [negb].
  erewrite bind_run by (apply post_answered; exact Hreq).
  eexists. split; [| split].
  - intros resp -> Hstatus. apply Z.leb_gt in Hstatus. rewrite Hstatus.
    unfold ret, json_Decode, ValidationResult_Decodable. simpl.
    by destruct (decode_ValidationResult (resp_Body resp) zero).
  - intros resp -> Hstatus. apply Z.leb_le in Hstatus. rewrite Hstatus.
    destruct (bool_decide _ || _); eexists; reflexivity.
  - intros e ->. reflexivity.
Qed.


End Contract.

(** ** Closed instances *)

#[local] Existing Instance sample_runtime.

Lemma ValidateCountry_wrong_length_witness :
  ValidateCountry (sample_validator 200 sample_valid_body) (Ctx None) "USA"
    {| FollowUpward := true |} (sample_world []) =
  Some (({| Valid := false; Message := "Invalid country code."; Code := "" |},
         None), sample_world []).
Proof. apply ValidateCountry_wrong_length. simpl. lia. Defined.

Lemma ValidateCountries_wrong_length_witness :
  ∃ w',
    ValidateCountries (sample_validator 200 sample_valid_body) (Ctx None)
      (strs_at 0) {| FollowUpward := false |} (sample_world ["US"; "BAD1"]) =
      Some ((NilSlice,
             Some "invalid country code format. All codes must be 2-character strings"),
            w') ∧
    posts w' = [] ∧ sent w' = [].
Proof.
  apply (ValidateCountries_wrong_length
           (sample_validator 200 sample_valid_body) (Ctx None) (strs_at 0)
           {| FollowUpward := false |} (sample_world ["US"; "BAD1"])).
  vm_compute. apply Exists_cons_tl, Exists_cons_hd. lia.
Defined.

Lemma ValidateSubdivisions_wrong_country_witness :
  ValidateSubdivisions (sample_validator 200 sample_valid_body) (Ctx None)
    (strs_at 0) "USA" {| FollowRelated := false; AllowParentSelection := false |}
    (sample_world ["US-CA"]) =
  Some ((NilSlice, Some "invalid country code"), sample_world ["US-CA"]).
Proof.
  apply (ValidateSubdivisions_wrong_country
           (sample_validator 200 sample_valid_body) (Ctx None) (strs_at 0) "USA"
           {| FollowRelated := false; AllowParentSelection := false |}
           (sample_world ["US-CA"])).
  simpl. lia.
Defined.

Lemma ValidateSubdivision_code_unchecked_witness :
  ValidateSubdivision (sample_validator 200 sample_valid_body) (Ctx None)
    "US-CA" "USA" {| FollowRelated := false; AllowParentSelection := false |}
    (sample_world []) =
  Some (({| Valid := false; Message := "Invalid country code."; Code := "" |},
         None), sample_world []) ∧
  ∃ r w' payload,
    ValidateSubdivision (sample_validator 200 sample_valid_body) (Ctx None)
      "" "us" {| FollowRelated := false; AllowParentSelection := false |}
      (sample_world []) = Some (r, w') ∧
    posts w' = [("/api/validate/subdivision", payload)] ∧
    payload !! "code" = Some (PString "") ∧
    ∀ req, req ∈ sent w' -> req ∉ [] ->
           req_body req !! "code" = Some (JString "").
Proof.
  split.
  - apply (ValidateSubdivision_code_unchecked
             (sample_validator 200 sample_valid_body) (Ctx None) "US-CA" "USA"
             {| FollowRelated := false; AllowParentSelection := false |}
             (sample_world [])).
    simpl. lia.
  - apply (ValidateSubdivision_code_unchecked
             (sample_validator 200 sample_valid_body) (Ctx None) "" "us"
             {| FollowRelated := false; AllowParentSelection := false |}
             (sample_world [])).
    reflexivity.
Defined.

Lemma empty_codes_empty_results_witness :
  ValidateCountries offline_validator (Ctx None) nil_strs
    {| FollowUpward := true |} (sample_world []) =
    Some ((Slice [], None), sample_world []) ∧
  ValidateSubdivisions offline_validator (Ctx None) (strs_at 0) "US"
    {| FollowRelated := true; AllowParentSelection := true |} (sample_world []) =
    Some ((Slice [], None), sample_world []).
Proof.
  split.
  - exact (proj1 (empty_codes_empty_results offline_validator (Ctx None) nil_strs
                    "US" {| FollowUpward := true |}
                    {| FollowRelated := true; AllowParentSelection := true |}
                    (sample_world []) eq_refl)).
  - exact (proj2 (empty_codes_empty_results offline_validator (Ctx None) (strs_at 0)
                    "US" {| FollowUpward := true |}
                    {| FollowRelated := true; AllowParentSelection := true |}
                    (sample_world []) eq_refl) eq_refl).
Defined.

Lemma post_error_status_witness :
  (∃ w',
     post (sample_validator 404 sample_error_body) (Ctx None)
       "/api/validate/country" {[ "code" := PString "US" ]}
       (Some (zero : ValidationResult)) (sample_world []) =
       Some ((Some zero, Some "not found"), w')) ∧
  (∃ w',
     post (sample_validator 500 sample_empty_body) (Ctx None)
       "/api/validate/country" {[ "code" := PString "US" ]}
       (Some (zero : ValidationResult)) (sample_world []) =
       Some ((Some zero, Some "countriesdb: http 500"), w')).
Proof.
  split.
  - edestruct (post_error_status (sample_validator 404 sample_error_body)
                 (Ctx None) "/api/validate/country" {[ "code" := PString "US" ]}
                 (Some (zero : ValidationResult)) (sample_world []))
      as (err & w' & Hrun & Hmsg & _).
    + vm_compute. reflexivity.
    + reflexivity.
    + simpl. lia.
    + exists w'. rewrite Hrun.
      rewrite (Hmsg {| apiError_Message := "not found" |});
        [reflexivity | reflexivity | discriminate].
  - edestruct (post_error_status (sample_validator 500 sample_empty_body)
                 (Ctx None) "/api/validate/country" {[ "code" := PString "US" ]}
                 (Some (zero : ValidationResult)) (sample_world []))
      as (err & w' & Hrun & _ & Hgeneric).
    + vm_compute. reflexivity.
    + reflexivity.
    + simpl. lia.
    + exists w'. rewrite Hrun.
      destruct Hgeneric as (numeral & -> & Hread); [left; discriminate |].
      vm_compute in Hrun. injection Hrun as Hnumeral _. subst numeral.
      reflexivity.
Defined.

Lemma ValidateCountry_outcome_witness :
  ∃ w',
    ValidateCountry (sample_validator 200 sample_valid_body) (Ctx None) "us"
      {| FollowUpward := false |} (sample_world []) =
    Some (({| Valid := true; Message := ""; Code := "US" |}, None), w').
Proof.
  edestruct (ValidateCountry_outcome (sample_validator 200 sample_valid_body)
               (Ctx None) "us" {| FollowUpward := false |} (sample_world []))
    as (w' & Hlow & _ & _).
  - reflexivity.
  - vm_compute. reflexivity.
  - exists w'.
    apply (Hlow {| StatusCode := 200; resp_Body := sample_valid_body |});
      [reflexivity | simpl; lia].
Defined.

(** C6, as the claim has it, fails on a response outside 2xx and below 400:
    a 300 whose body decodes is returned as a result, with a nil error. *)
Lemma ValidateCountry_status_300_is_decoded :
  ¬ (∀ (rt : GoRuntime) v ctx code opts w req resp,
       String.length code = 2%nat ->
       post_request v ctx "/api/validate/country"
         (marshal_value (heap w) <$>
            {[ "code" := PString (ToUpper code);
               "follow_upward" := PBool (FollowUpward opts) ]}) = inl req ->
       httpClient v req = DoResponse resp ->
       ((200 <= StatusCode resp < 300)%Z ->
        ∃ w', ValidateCountry v ctx code opts w =
                Some (((decode_ValidationResult (resp_Body resp) zero).1, None), w')) ∧
       (¬ (200 <= StatusCode resp < 300)%Z ->
        ∃ e w', ValidateCountry v ctx code opts w = Some ((zero, Some e), w'))).
Proof.
  intros Hclaim.
  edestruct (Hclaim sample_runtime (sample_validator 300 sample_valid_body)
               (Ctx None) "US" {| FollowUpward := false |} (sample_world []))
    as [_ Hother].
  - reflexivity.
  - vm_compute. reflexivity.
  - reflexivity.
  - destruct Hother as (e & w' & Hrun); [simpl; lia |].
    vm_compute in Hrun. discriminate Hrun.
Qed.

Lemma batch_flags_disabled_witness :
  (∃ r w',
     ValidateCountries (sample_validator 200 sample_valid_body) (Ctx None)
       (strs_at 0) {| FollowUpward := true |} (sample_world ["us"; "ca"]) =
       Some (r, w') ∧
     posts w' =
       [("/api/validate/country",
         {[ "code" := PStrings (strs_at 0); "follow_upward" := PBool false ]})]) ∧
  (∃ r w' payload,
     ValidateSubdivisions (sample_validator 200 sample_valid_body) (Ctx None)
       (strs_at 0) "us" {| FollowRelated := true; AllowParentSelection := true |}
       (sample_world ["US-CA"]) = Some (r, w') ∧
     posts w' = [("/api/validate/subdivision", payload)] ∧
     payload !! "follow_related" = Some (PBool false) ∧
     payload !! "allow_parent_selection" = Some (PBool true)).
Proof.
  split.
  - destruct (batch_flags_disabled (sample_validator 200 sample_valid_body)
                (Ctx None) (strs_at 0) "us" {| FollowUpward := true |}
                {| FollowRelated := true; AllowParentSelection := true |}
                (sample_world ["us"; "ca"])) as (_ & Hcountries & _ & _).
    destruct Hcountries as (r & w' & Hrun & Hposts & _).
    + vm_compute. discriminate.
    + vm_compute. repeat constructor.
    + exists r, w'. split; [exact Hrun | exact Hposts].
  - destruct (batch_flags_disabled (sample_validator 200 sample_valid_body)
                (Ctx None) (strs_at 0) "us" {| FollowUpward := true |}
                {| FollowRelated := true; AllowParentSelection := true |}
                (sample_world ["US-CA"])) as (_ & _ & _ & Hsubs).
    destruct Hsubs as (r & w' & payload & Hrun & Hposts & Hfr & Haps & _).
    + reflexivity.
    + vm_compute. discriminate.
    + exists r, w', payload. repeat split; assumption.
Defined.



Lemma codes_slice_written_or_copied_witness :
  (∃ e w',
     ValidateCountries offline_validator (Ctx None) (strs_at 0)
       {| FollowUpward := false |} (sample_world ["us"; "BAD1"; "ca"]) =
       Some ((NilSlice, Some e), w') ∧
     elems_of (heap w') (strs_at 0) = ["US"; "BAD1"; "ca"]) ∧
  (∃ r w' l' payload,
     ValidateSubdivisions offline_validator (Ctx None) (strs_at 0) "us"
       {| FollowRelated := false; AllowParentSelection := false |}
       (sample_world ["us-ca"; ""]) = Some (r, w') ∧
     posts w' = [("/api/validate/subdivision", payload)] ∧
     payload !! "code" = Some (PStrings (strs_at l')) ∧
     l' ≠ 0%nat ∧
     heap w' !! l' = Some ["us-ca"; ""] ∧
     elems_of (heap w') (strs_at 0) = ["us-ca"; ""]).
Proof.
  split.
  - destruct (codes_slice_written_or_copied offline_validator (Ctx None)
                (strs_at 0) "us" {| FollowUpward := false |}
                {| FollowRelated := false; AllowParentSelection := false |}
                (sample_world ["us"; "BAD1"; "ca"])) as (Hstop & _ & _ & _).
    apply (Hstop ["us"] "BAD1" ["ca"]).
    + reflexivity.
    + repeat constructor.
    + simpl. lia.
  - destruct (codes_slice_written_or_copied offline_validator (Ctx None)
                (strs_at 0) "us" {| FollowUpward := false |}
                {| FollowRelated := false; AllowParentSelection := false |}
                (sample_world ["us-ca"; ""])) as (_ & _ & _ & Hcopy).
    destruct Hcopy
      as (r & w' & l' & payload & Hrun & Hposts & Hcode & _ & Hne & Hnew & Hsame & _).
    + reflexivity.
    + vm_compute. discriminate.
    + exists r, w', l', payload. split; [exact Hrun |].
      split; [exact Hposts |]. split; [exact Hcode |].
      split; [congruence |]. split; [exact Hnew | exact Hsame].
Defined.

(** ** Worked examples *)

Example ToUpper_us : ToUpper "us" = "US".
Proof. reflexivity. Qed.

Example ToUpper_mixed : ToUpper "g-B1" = "G-B1".
Proof. reflexivity. Qed.

Example fmt_d_status : fmt_d 500 = "500" ∧ fmt_d 404 = "404".
Proof. split; reflexivity. Qed.

(** Status 500 with an empty body: the generic error. *)
Example post_500_empty_body :
  fst <$> post (sample_validator 500 sample_empty_body) (Ctx None)
            "/api/validate/country" {[ "code" := PString "US" ]}
            (Some (zero : ValidationResult)) (sample_world [])
  = Some (Some zero, Some "countriesdb: http 500").
Proof. vm_compute. reflexivity. Qed.

(** A nil context: [post] is entered, the request is refused, nothing
    reaches the client. *)
Example ValidateCountry_nil_context :
  ValidateCountry (sample_validator 200 sample_valid_body) nilContext "us"
    {| FollowUpward := true |} (sample_world [])
  = Some ((zero, Some "net/http: nil Context"),
          {| heap := {[ 0%nat := [] ]};
             posts := [("/api/validate/country",
                        {[ "code" := PString "US";
                           "follow_upward" := PBool true ]})];
             sent := [] |}).
Proof. vm_compute. reflexivity. Qed.

(** The request of a batch call carries the codes as the loop has left
    them, upper-cased. *)
Example ValidateCountries_request_body :
  (λ r, req_body <$> sent r.2) <$>
    ValidateCountries (sample_validator 200 sample_valid_body) (Ctx None)
      (strs_at 0) {| FollowUpward := true |} (sample_world ["us"; "ca"])
  = Some [ {[ "code" := JStrings ["US"; "CA"]; "follow_upward" := JBool false ]} ].
Proof. vm_compute. reflexivity. Qed.

(** An unreachable server: the error of the client, and a nil slice. *)
Example ValidateSubdivisions_offline :
  fst <$> ValidateSubdivisions offline_validator (Ctx None) (strs_at 0) "us"
            {| FollowRelated := true; AllowParentSelection := true |}
            (sample_world ["US-CA"; ""])
  = Some (NilSlice, Some "dial tcp: connection refused").
Proof. vm_compute. reflexivity. Qed.

(** ** Construction: properties *)

(** *** Strings and lists of bytes *)

Lemma string_of_list_ascii_app l1 l2 :
  string_of_list_ascii (l1 ++ l2) =
  string_of_list_ascii l1 +:+ string_of_list_ascii l2.
Proof.
  induction l1 as [|a l1 IH]; [reflexivity |].
  change (String a (string_of_list_ascii (l1 ++ l2)) =
          String a (string_of_list_ascii l1 +:+ string_of_list_ascii l2)).
  now rewrite IH.
Qed.

Lemma string_of_list_ascii_nil l : string_of_list_ascii l = EmptyString -> l = [].
Proof. destruct l; [reflexivity | discriminate]. Qed.

Lemma string_of_replicate_slash k :
  string_of_list_ascii (replicate k "/"%char) = slashes k.
Proof. induction k as [|k IH]; simpl; [reflexivity | now rewrite IH]. Qed.

Lemma rev_replicate {A} k (a : A) : rev (replicate k a) = replicate k a.
Proof.
  induction k as [|k IH]; simpl; [reflexivity |].
  rewrite IH. clear IH. induction k as [|k IH]; simpl; [reflexivity |].
  now rewrite IH.
Qed.

Lemma append_empty_r s : s +:+ EmptyString = s.
Proof.
  induction s as [|a s IH]; [reflexivity |].
  change (String a (s +:+ EmptyString) = String a s). now rewrite IH.
Qed.

(** *** trimRightByte *)

(** The loop drops a run of [c] from the front of the reversed string and
    stops at a byte that is not [c]. *)
Lemma trim_last_split r c :
  ∃ k, r = replicate k c ++ trim_last r c ∧
       ∀ r', trim_last r c ≠ c :: r'.
Proof.
  induction r as [|a r IH]; simpl.
  - exists 0%nat. split; [reflexivity | discriminate].
  - destruct (Ascii.eqb a c) eqn:Hac.
    + apply Ascii.eqb_eq in Hac. subst a.
      destruct IH as (k & Hk & Hhead). exists (S k). simpl.
      split; [now rewrite <- Hk | assumption].
    + exists 0%nat. split; [reflexivity |].
      intros r' [= -> _]. rewrite Ascii.eqb_refl in Hac. discriminate.
Qed.

Lemma trimRightByte_split s c :
  ∃ k, s = trimRightByte s c +:+ string_of_list_ascii (replicate k c) ∧
       ¬ ends_with (trimRightByte s c) c.
Proof.
  unfold trimRightByte.
  destruct (trim_last_split (rev (list_ascii_of_string s)) c) as (k & Hk & Hhead).
  exists k. split.
  - rewrite <- string_of_list_ascii_app.
    rewrite <- (rev_replicate k c), <- rev_app_distr, <- Hk, rev_involutive.
    now rewrite string_of_list_ascii_of_string.
  - intros [s' Hs'].
    apply (f_equal list_ascii_of_string) in Hs'.
    rewrite list_ascii_of_string_of_list_ascii in Hs'.
    apply (f_equal (@rev ascii)) in Hs'. rewrite rev_involutive in Hs'.
    rewrite <- (string_of_list_ascii_of_string s') in Hs'.
    change (String c EmptyString) with (string_of_list_ascii [c]) in Hs'.
    rewrite <- string_of_list_ascii_app in Hs'.
    rewrite list_ascii_of_string_of_list_ascii, rev_app_distr in Hs'.
    simpl in Hs'. exact (Hhead _ Hs').
Qed.

Lemma trimRightByte_all k c :
  trimRightByte (string_of_list_ascii (replicate k c)) c = EmptyString.
Proof.
  unfold trimRightByte. rewrite list_ascii_of_string_of_list_ascii, rev_replicate.
  replace (trim_last (replicate k c) c) with (@nil ascii); [reflexivity |].
  induction k as [|k IH]; simpl; [reflexivity |].
  now rewrite Ascii.eqb_refl.
Qed.

(** *** TrimSpace on ASCII strings *)

Section Construction.

Context `{lib : GoLibrary}.

Lemma trim_stop_cons c r :
  trim_stop (c :: r) =
    if (RuneSelf <=? nat_of_ascii c)%nat
    then TrimRightFunc_IsSpace (string_of_list_ascii (rev (c :: r)))
    else if asciiSpace c then trim_stop r
         else string_of_list_ascii (rev (c :: r)).
Proof. reflexivity. Qed.

Lemma TrimSpace_cons c s :
  TrimSpace (String c s) =
    if (RuneSelf <=? nat_of_ascii c)%nat then TrimFunc_IsSpace (String c s)
    else if asciiSpace c then TrimSpace s
         else trim_stop (rev (list_ascii_of_string (String c s))).
Proof. reflexivity. Qed.

Lemma trim_stop_keeps_a_byte r :
  Forall (λ c, (nat_of_ascii c <? RuneSelf)%nat = true) r ->
  Exists (λ c, asciiSpace c = false) r ->
  trim_stop r ≠ EmptyString.
Proof.
  induction r as [|c r IH]; intros Hascii Hex; [inversion Hex |].
  apply Forall_cons in Hascii as [Hc Hascii]. rewrite trim_stop_cons.
  apply Nat.ltb_lt in Hc.
  replace (RuneSelf <=? nat_of_ascii c)%nat with false
    by (symmetry; apply Nat.leb_gt; exact Hc).
  destruct (asciiSpace c) eqn:Hsp.
  - apply IH; [assumption |].
    inversion Hex as [? ? Hhd | ? ? Htl]; subst; [congruence | assumption].
  - intros Hnil. apply string_of_list_ascii_nil in Hnil.
    apply (f_equal (@length ascii)) in Hnil.
    change (rev (c :: r)) with (rev r ++ [c]) in Hnil.
    rewrite length_app in Hnil. simpl in Hnil. lia.
Qed.

Lemma isASCII_bytes s :
  isASCII s = true ->
  Forall (λ c, (nat_of_ascii c <? RuneSelf)%nat = true) (list_ascii_of_string s).
Proof.
  induction s as [|c s IH]; simpl; intros Hs; [constructor |].
  apply andb_true_iff in Hs as [Hc Hs]. constructor; [assumption | auto].
Qed.

Lemma TrimSpace_ascii_blank s :
  isASCII s = true ->
  (TrimSpace s = EmptyString <-> all_asciiSpace s = true).
Proof.
  induction s as [|c s IH]; intros Hs; [simpl; tauto |].
  change (isASCII (String c s))
    with ((nat_of_ascii c <? RuneSelf)%nat && isASCII s) in Hs.
  apply andb_true_iff in Hs as [Hc Hs].
  pose proof Hc as Hlt. apply Nat.ltb_lt in Hlt.
  rewrite TrimSpace_cons.
  change (all_asciiSpace (String c s)) with (asciiSpace c && all_asciiSpace s).
  replace (RuneSelf <=? nat_of_ascii c)%nat with false
    by (symmetry; apply Nat.leb_gt; exact Hlt).
  destruct (asciiSpace c) eqn:Hsp; [now apply IH |].
  split; [| discriminate].
  intros Hnil. exfalso. revert Hnil. apply trim_stop_keeps_a_byte.
  - change (list_ascii_of_string (String c s)) with (c :: list_ascii_of_string s).
    change (rev (c :: list_ascii_of_string s))
      with (rev (list_ascii_of_string s) ++ [c]).
    apply Forall_app. split.
    + apply List.Forall_rev. now apply isASCII_bytes.
    + constructor; [assumption | constructor].
  - change (list_ascii_of_string (String c s)) with (c :: list_ascii_of_string s).
    change (rev (c :: list_ascii_of_string s))
      with (rev (list_ascii_of_string s) ++ [c]).
    apply Exists_app. right. by constructor.
Qed.

(** *** The options *)

Lemma TrimRight_slash base :
  base ≠ EmptyString -> TrimRight base "/" = trimRightByte base "/"%char.
Proof. destruct base; [congruence | reflexivity]. Qed.

Lemma WithBaseURL_set base v :
  base ≠ EmptyString ->
  WithBaseURL base v =
    {| apiKey := apiKey v; baseURL := trimRightByte base "/"%char;
       httpClient := httpClient v |}.
Proof.
  intros Hbase. unfold WithBaseURL.
  replace (String.eqb base "") with false
    by (symmetry; now apply String.eqb_neq).
  simpl. now rewrite TrimRight_slash.
Qed.

Lemma WithBaseURL_empty v : WithBaseURL "" v = v.
Proof. reflexivity. Qed.

Lemma package_option_step opt v :
  package_option opt ->
  apiKey (opt v) = apiKey v ∧
  (baseURL (opt v) = baseURL v ∨
   ∃ base, opt = WithBaseURL base ∧ base ≠ EmptyString ∧
           baseURL (opt v) = trimRightByte base "/"%char).
Proof.
  intros [[base ->] | [h ->]].
  - destruct (decide (base = EmptyString)) as [-> | Hbase].
    + rewrite WithBaseURL_empty. auto.
    + rewrite WithBaseURL_set by assumption. simpl. split; [reflexivity |].
      right. exists base. auto.
  - destruct h; simpl; auto.
Qed.

Lemma package_options_fold opts : ∀ v,
  Forall package_option opts ->
  apiKey (fold_left (fun validator opt => opt validator) opts v) = apiKey v ∧
  (baseURL (fold_left (fun validator opt => opt validator) opts v) = baseURL v ∨
   ∃ base, WithBaseURL base ∈ opts ∧ base ≠ EmptyString ∧
           baseURL (fold_left (fun validator opt => opt validator) opts v)
           = trimRightByte base "/"%char).
Proof.
  induction opts as [|opt opts IH]; intros v Hall; simpl; [auto |].
  apply Forall_cons in Hall as [Hopt Hall].
  destruct (IH (opt v) Hall) as [Hkey Hbase].
  destruct (package_option_step opt v Hopt) as [Hkey' Hbase'].
  split; [congruence |].
  destruct Hbase as [Hsame | (base & Hin & Hne & Hset)].
  - destruct Hbase' as [Hsame' | (base & -> & Hne & Hset)].
    + left. congruence.
    + right. exists base. split; [apply elem_of_cons; auto |].
      split; [assumption | congruence].
  - right. exists base. split; [apply elem_of_cons; auto | auto].
Qed.

(** X1. [NewValidator] and blank keys, for a key of ASCII bytes.  When
    every byte of the key is ASCII white space (tab, line feed, vertical
    tab, form feed, carriage return, space; the empty key among them) the
    constructor fails with "countriesdb: api key is required", and the
    options are not applied.  When some byte is not white space and the
    options are options of this package, it makes a validator, holding the
    key. *)
Theorem NewValidator_blank_key key opts :
  isASCII key = true ->
  (all_asciiSpace key = true ->
   NewValidator key opts = inr "countriesdb: api key is required") ∧
  (all_asciiSpace key = false ->
   Forall package_option opts ->
   ∃ v, NewValidator key opts = inl v ∧ apiKey v = key).
Proof.
  intros Hascii. pose proof (TrimSpace_ascii_blank key Hascii) as Hblank.
  unfold NewValidator. split.
  - intros Hkey. apply Hblank in Hkey. rewrite Hkey. reflexivity.
  - intros Hkey Hopts.
    destruct (String.eqb (TrimSpace key) "") eqn:Htrim.
    + apply String.eqb_eq in Htrim. apply Hblank in Htrim. congruence.
    + eexists. split; [reflexivity |].
      exact (proj1 (package_options_fold opts _ Hopts)).
Qed.

(** X2. What a validator made with the options of this package holds: the
    key exactly as it was given (white space around it included, nothing
    is trimmed), and as base URL either the default or the value of a
    [WithBaseURL] option that is not empty, without its trailing slashes. *)
Theorem NewValidator_fields key opts v :
  Forall package_option opts ->
  NewValidator key opts = inl v ->
  apiKey v = key ∧
  (baseURL v = "https://api.countriesdb.com" ∨
   ∃ base, WithBaseURL base ∈ opts ∧ base ≠ EmptyString ∧
           baseURL v = trimRightByte base "/"%char).
Proof.
  intros Hopts. unfold NewValidator.
  destruct (String.eqb (TrimSpace key) ""); [discriminate |].
  intros [= <-].
  exact (package_options_fold opts _ Hopts).
Qed.

(** X3. [WithBaseURL] with a value that is not empty sets the base URL to
    that value without its trailing slashes: the value is the new base URL
    followed by slashes only, the new base URL does not end with a slash,
    and the key and the client are kept. *)
Theorem WithBaseURL_trims base v :
  base ≠ EmptyString ->
  (∃ k, base = baseURL (WithBaseURL base v) +:+ slashes k) ∧
  ¬ ends_with (baseURL (WithBaseURL base v)) "/" ∧
  apiKey (WithBaseURL base v) = apiKey v ∧
  httpClient (WithBaseURL base v) = httpClient v.
Proof.
  intros Hbase. rewrite WithBaseURL_set by assumption. simpl.
  destruct (trimRightByte_split base "/"%char) as (k & Hk & Hend).
  split; [| split; [assumption | split; reflexivity]].
  exists k. now rewrite <- string_of_replicate_slash.
Qed.

(** X4. Options that carry nothing are ignored: an empty base URL and a nil
    client leave the validator as it is, so a list of options with one of
    them anywhere in it makes the validator the list without it makes. *)
Theorem NewValidator_ignores_empty_options key before after :
  NewValidator key (before ++ WithBaseURL "" :: after) =
    NewValidator key (before ++ after) ∧
  NewValidator key (before ++ WithHTTPClient None :: after) =
    NewValidator key (before ++ after).
Proof.
  unfold NewValidator.
  destruct (String.eqb (TrimSpace key) ""); [split; reflexivity |].
  rewrite !fold_left_app. split; reflexivity.
Qed.

(** X5. How the options combine: a base URL option and a client option
    commute; of two base URL options the later one wins when it is not
    empty, and of two client options the later one wins when it is not
    nil. *)
Theorem options_order v b b1 b2 h h1 c2 :
  WithBaseURL b (WithHTTPClient h v) = WithHTTPClient h (WithBaseURL b v) ∧
  (b2 ≠ EmptyString -> WithBaseURL b2 (WithBaseURL b1 v) = WithBaseURL b2 v) ∧
  WithHTTPClient (Some c2) (WithHTTPClient h1 v) = WithHTTPClient (Some c2) v.
Proof.
  split; [| split].
  - destruct (decide (b = EmptyString)) as [-> | Hb].
    + rewrite !WithBaseURL_empty. reflexivity.
    + rewrite !WithBaseURL_set by assumption. destruct h; reflexivity.
  - intros Hb2. rewrite (WithBaseURL_set b2 v), (WithBaseURL_set b2 _) by assumption.
    destruct (decide (b1 = EmptyString)) as [-> | Hb1].
    + rewrite WithBaseURL_empty. reflexivity.
    + rewrite WithBaseURL_set by assumption. reflexivity.
  - destruct h1; reflexivity.
Qed.

(** X6. A base URL option made of slashes only is not ignored as the empty
    one is: it leaves the validator with an empty base URL. *)
Theorem WithBaseURL_only_slashes k v :
  baseURL (WithBaseURL (slashes (S k)) v) = EmptyString ∧
  baseURL (WithBaseURL (slashes 0) v) = baseURL v.
Proof.
  split; [| reflexivity].
  rewrite WithBaseURL_set by discriminate. simpl baseURL.
  rewrite <- string_of_replicate_slash.
  exact (trimRightByte_all (S k) "/"%char).
Qed.

End Construction.

(** ** The request helper: further properties *)

Section Requests.

Context `{rt : GoRuntime}.

Lemma post_request_shape v ctx path body req :
  post_request v ctx path body = inl req ->
  ctx ≠ nilContext ∧ url_Parse (baseURL v +:+ path) = None ∧
  req = {| req_ctx := ctx; Method := "POST"; URL := baseURL v +:+ path;
           Header := <["Authorization" := "Bearer " +:+ apiKey v]>
                       (<["Content-Type" := "application/json"]> ∅);
           req_body := body |}.
Proof.
  unfold post_request, NewRequestWithContext.
  destruct ctx as [|done]; [discriminate |].
  destruct (url_Parse (baseURL v +:+ path)) as [e|]; [discriminate |].
  intros [= <-]. split; [discriminate | split; reflexivity].
Qed.

Lemma post_refused {T} `{Decodable T} v ctx path payload (out : option T) w e :
  post_request v ctx path (marshal_value (heap w) <$> payload) = inr e ->
  post v ctx path payload out w =
    Some ((out, Some e),
          {| heap := heap w; posts := posts w ++ [(path, payload)];
             sent := sent w |}).
Proof.
  unfold post_request, post, bind, enter_post, json_Marshal, ret; simpl.
  destruct (NewRequestWithContext _ _ _ _) as [req0|e0]; [discriminate |].
  intros [= <-]. reflexivity.
Qed.

(** X7. What a call of [post] that returns has done: the heap is as it
    was, and at most one request has been handed to the client; that
    request is a POST to the base URL followed by the path, under the
    context of the call, with exactly two headers,
    [Content-Type: application/json] and [Authorization: Bearer] followed
    by the key, and the marshalled payload as its body. *)
Theorem post_sends_one_request {T} `{Decodable T} v ctx path payload
    (out : option T) w r w' :
  post v ctx path payload out w = Some (r, w') ->
  heap w' = heap w ∧
  ∃ new,
    sent w' = sent w ++ new ∧ (length new ≤ 1)%nat ∧
    ∀ req, req ∈ new ->
      req_ctx req = ctx ∧ Method req = "POST" ∧
      URL req = baseURL v +:+ path ∧
      Header req = {[ "Content-Type" := "application/json";
                      "Authorization" := "Bearer " +:+ apiKey v ]} ∧
      req_body req = marshal_value (heap w) <$> payload.
Proof.
  destruct (post_request v ctx path (marshal_value (heap w) <$> payload))
    as [req|e] eqn:Hreq.
  - rewrite (post_answered v ctx path payload out w req Hreq).
    intros [= <- <-]. split; [reflexivity |].
    exists [req]. split; [reflexivity |]. split; [simpl; lia |].
    intros req' ->%list_elem_of_singleton.
    apply post_request_shape in Hreq as (_ & _ & ->). simpl.
    repeat split; reflexivity.
  - rewrite (post_refused v ctx path payload out w e Hreq).
    intros [= <- <-]. split; [reflexivity |].
    exists []. split; [simpl; now rewrite app_nil_r |]. split; [simpl; lia |].
    intros req Hin. inversion Hin.
Qed.

(** X8. A request that cannot be made is an error of [post] with nothing
    sent: under a nil context the error is "net/http: nil Context", and
    under any other context a base URL and path that do not parse give the
    error of the URL parser; [out] is left as it was. *)
Theorem post_request_not_made {T} `{Decodable T} v ctx path payload
    (out : option T) w :
  (ctx = nilContext ->
   ∃ w', post v ctx path payload out w =
           Some ((out, Some "net/http: nil Context"), w') ∧
         sent w' = sent w) ∧
  (∀ e, ctx ≠ nilContext -> url_Parse (baseURL v +:+ path) = Some e ->
   ∃ w', post v ctx path payload out w = Some ((out, Some e), w') ∧
         sent w' = sent w).
Proof.
  split.
  - intros ->. erewrite post_refused by reflexivity.
    eexists. split; reflexivity.
  - intros e Hctx Hurl. erewrite post_refused.
    + eexists. split; reflexivity.
    + unfold post_request, NewRequestWithContext.
      destruct ctx; [congruence |]. now rewrite Hurl.
Qed.

(** X9. An error of the client (no connection, a cancelled context, a
    timeout) is the error of [post], as the client gave it; [out] is left
    as it was and the request is the one the client was given. *)
Theorem post_client_error {T} `{Decodable T} v ctx path payload
    (out : option T) w req e :
  post_request v ctx path (marshal_value (heap w) <$> payload) = inl req ->
  httpClient v req = DoError e ->
  ∃ w', post v ctx path payload out w = Some ((out, Some e), w') ∧
        sent w' = sent w ++ [req].
Proof.
  intros Hreq Hdo.
  rewrite (post_answered v ctx path payload out w req Hreq), Hdo.
  eexists. split; reflexivity.
Qed.

(** X10. A response with a status below 400 is decoded into [out]: [post]
    returns what the decoder leaves in the variable and the decoder's own
    error, nil when the body decodes; with a nil [out] the body is not
    looked at and [post] returns a nil error. *)
Theorem post_status_below_400 {T} `{Decodable T} v ctx path payload w req resp :
  post_request v ctx path (marshal_value (heap w) <$> payload) = inl req ->
  httpClient v req = DoResponse resp ->
  (StatusCode resp < 400)%Z ->
  (∃ w', post v ctx path payload (@None T) w = Some ((None, None), w')) ∧
  (∀ x, ∃ w', post v ctx path payload (Some x) w =
                Some ((Some (json_Decode (resp_Body resp) x).1,
                       (json_Decode (resp_Body resp) x).2), w')).
Proof.
  intros Hreq Hdo Hstatus. apply Z.leb_gt in Hstatus. split.
  - rewrite (post_answered v ctx path payload None w req Hreq), Hdo, Hstatus.
    eexists. reflexivity.
  - intros x.
    rewrite (post_answered v ctx path payload (Some x) w req Hreq), Hdo, Hstatus.
    eexists. reflexivity.
Qed.

(** X11. The generic error carries the status: for a status of 400 or more
    whose body gives no message (the decoder fails, or the message is
    empty) the error is "countriesdb: http " followed by a decimal numeral,
    and reading that numeral gives the status. *)
Theorem generic_error_carries_status {T} `{Decodable T} v ctx path payload
    (out : option T) w req resp :
  post_request v ctx path (marshal_value (heap w) <$> payload) = inl req ->
  httpClient v req = DoResponse resp ->
  (400 <= StatusCode resp)%Z ->
  (decode_apiError (resp_Body resp) zero).2 ≠ None ∨
  apiError_Message (decode_apiError (resp_Body resp) zero).1 = "" ->
  ∃ numeral w',
    post v ctx path payload out w =
      Some ((out, Some ("countriesdb: http " +:+ numeral)), w') ∧
    option_map Z.of_int (NilZero.int_of_string numeral) = Some (StatusCode resp).
Proof.
  intros Hreq Hdo Hstatus Hbody. apply Z.leb_le in Hstatus.
  rewrite (post_answered v ctx path payload out w req Hreq), Hdo, Hstatus.
  replace (bool_decide ((decode_apiError (resp_Body resp) zero).2 ≠ None)
           || (apiError_Message (decode_apiError (resp_Body resp) zero).1 =? "")%string)
    with true.
  - eexists _, _. split; [reflexivity | apply fmt_d_reads_back].
  - symmetry. apply orb_true_iff. destruct Hbody as [Hd | Hm].
    + left. now apply bool_decide_eq_true.
    + right. now apply String.eqb_eq.
Qed.

End Requests.

(** ** The four methods: further properties *)

Section Methods.

Context `{rt : GoRuntime}.

(** *** The bodies that are marshalled *)

Lemma country_body h code fu :
  marshal_value h <$>
    ({[ "code" := PString code; "follow_upward" := PBool fu ]} : gmap string PVal)
  = {[ "code" := JString code; "follow_upward" := JBool fu ]}.
Proof. rewrite fmap_insert, map_fmap_singleton. reflexivity. Qed.

Lemma countries_body h l xs :
  h !! l = Some xs ->
  marshal_value h <$>
    ({[ "code" := PStrings (strs_at l); "follow_upward" := PBool false ]}
       : gmap string PVal)
  = {[ "code" := JStrings xs; "follow_upward" := JBool false ]}.
Proof.
  intros Hl. rewrite fmap_insert, map_fmap_singleton. simpl. now rewrite Hl.
Qed.

Lemma subdivision_body h code country fr aps :
  marshal_value h <$>
    ({[ "code" := PString code; "country" := PString country;
        "follow_related" := PBool fr;
        "allow_parent_selection" := PBool aps ]} : gmap string PVal)
  = {[ "code" := JString code; "country" := JString country;
       "follow_related" := JBool fr; "allow_parent_selection" := JBool aps ]}.
Proof. rewrite !fmap_insert, map_fmap_singleton. reflexivity. Qed.

Lemma subdivisions_body h l xs country aps :
  h !! l = Some xs ->
  marshal_value h <$>
    ({[ "code" := PStrings (strs_at l); "country" := PString country;
        "follow_related" := PBool false;
        "allow_parent_selection" := PBool aps ]} : gmap string PVal)
  = {[ "code" := JStrings xs; "country" := JString country;
       "follow_related" := JBool false; "allow_parent_selection" := JBool aps ]}.
Proof.
  intros Hl. rewrite !fmap_insert, map_fmap_singleton. simpl. now rewrite Hl.
Qed.

(** The run of a method from its call of [post] on, by what [post] finds. *)
Lemma post_then_refused {T} `{Decodable T} {B} v ctx path payload (out : option T)
    (k : option T * option error -> B) w e :
  post_request v ctx path (marshal_value (heap w) <$> payload) = inr e ->
  (x <~ post v ctx path payload out ;; ret (k x)) w =
    Some (k (out, Some e),
          {| heap := heap w; posts := posts w ++ [(path, payload)];
             sent := sent w |}).
Proof.
  intros Hreq. erewrite bind_run by (apply post_refused; exact Hreq).
  reflexivity.
Qed.

Lemma post_then_answered {T} `{Decodable T} {B} v ctx path payload (x : T)
    (k : option T * option error -> B) w req :
  post_request v ctx path (marshal_value (heap w) <$> payload) = inl req ->
  (y <~ post v ctx path payload (Some x) ;; ret (k y)) w =
    Some (k match httpClient v req with
            | DoError err => (Some x, Some err)
            | DoResponse resp =>
                if (400 <=? StatusCode resp)%Z then
                  (Some x,
                   Some (if bool_decide
                              ((decode_apiError (resp_Body resp) zero).2 ≠ None)
                            || String.eqb
                                 (apiError_Message
                                    (decode_apiError (resp_Body resp) zero).1) ""
                         then "countriesdb: http " +:+ fmt_d (StatusCode resp)
                         else apiError_Message
                                (decode_apiError (resp_Body resp) zero).1))
                else (Some (json_Decode (resp_Body resp) x).1,
                      (json_Decode (resp_Body resp) x).2)
            end,
          {| heap := heap w; posts := posts w ++ [(path, payload)];
             sent := sent w ++ [req] |}).
Proof.
  intros Hreq. erewrite bind_run by (apply post_answered; exact Hreq).
  unfold ret. do 3 f_equal.
  destruct (httpClient v req) as [resp|e]; [| reflexivity].
  destruct (400 <=? StatusCode resp)%Z; [| reflexivity].
  destruct (bool_decide _ || _); reflexivity.
Qed.

(** *** What is sent *)

(** X12. The request of [ValidateCountries] carries the codes upper-cased,
    in the order of the slice, and [follow_upward: false]: the payload
    holds the caller's slice itself, which the loop has rewritten by the
    time the payload is marshalled. *)
Theorem ValidateCountries_request v ctx codes opts w :
  elems_of (heap w) codes ≠ [] ->
  Forall (λ c, String.length c = 2%nat) (elems_of (heap w) codes) ->
  ∃ r w' new,
    ValidateCountries v ctx codes opts w = Some (r, w') ∧
    sent w' = sent w ++ new ∧
    ∀ req, req ∈ new ->
      URL req = baseURL v +:+ "/api/validate/country" ∧
      req_body req =
        {[ "code" := JStrings (ToUpper <$> elems_of (heap w) codes);
           "follow_upward" := JBool false ]}.
Proof.
  intros Hne Hall.
  destruct (elems_of_nonempty (heap w) codes Hne) as (l & -> & Hheap).
  rewrite (ValidateCountries_through v ctx l opts _ w Hheap Hne Hall).
  match goal with
  | |- context [(x <~ post v ctx ?p ?pl ?o ;; ret (@?k x)) ?w1] =>
      destruct (post_then v ctx p pl o k w1) as (r & new & -> & Hnew)
  end.
  eexists _, _, new. split; [reflexivity |]. split; [reflexivity |].
  intros req Hin. rewrite Forall_forall in Hnew.
  destruct (Hnew req Hin) as (_ & -> & -> & _). split; [reflexivity |].
  apply countries_body. simpl. rewrite lookup_insert_eq, Hheap. reflexivity.
Qed.

(** X13. The request of [ValidateSubdivisions] carries the codes as they
    were given, empty strings included and in the order of the slice, the
    country upper-cased, [follow_related: false] and
    [allow_parent_selection] as the options have it. *)
Theorem ValidateSubdivisions_request v ctx codes country opts w :
  String.length country = 2%nat ->
  elems_of (heap w) codes ≠ [] ->
  ∃ r w' new,
    ValidateSubdivisions v ctx codes country opts w = Some (r, w') ∧
    sent w' = sent w ++ new ∧
    ∀ req, req ∈ new ->
      URL req = baseURL v +:+ "/api/validate/subdivision" ∧
      req_body req =
        {[ "code" := JStrings (elems_of (heap w) codes);
           "country" := JString (ToUpper country);
           "follow_related" := JBool false;
           "allow_parent_selection" := JBool (AllowParentSelection opts) ]}.
Proof.
  intros Hlen Hne.
  destruct (elems_of_nonempty (heap w) codes Hne) as (l & -> & Hheap).
  rewrite (ValidateSubdivisions_through v ctx l country opts _ w Hlen Hheap Hne).
  match goal with
  | |- context [(x <~ post v ctx ?p ?pl ?o ;; ret (@?k x)) ?w1] =>
      destruct (post_then v ctx p pl o k w1) as (r & new & -> & Hnew)
  end.
  eexists _, _, new. split; [reflexivity |]. split; [reflexivity |].
  intros req Hin. rewrite Forall_forall in Hnew.
  destruct (Hnew req Hin) as (_ & -> & -> & _). split; [reflexivity |].
  apply subdivisions_body. simpl. rewrite lookup_insert_eq, Hheap. reflexivity.
Qed.

(** X14. The single-code methods send the flags as the options have them:
    the request of [ValidateCountry] carries the upper-cased code and
    [follow_upward] from the options; the request of [ValidateSubdivision]
    carries the code as given, the upper-cased country, and
    [follow_related] and [allow_parent_selection] from the options. *)
Theorem single_code_requests v ctx code country copts sopts w :
  (String.length code = 2%nat ->
   ∃ r w' new,
     ValidateCountry v ctx code copts w = Some (r, w') ∧
     sent w' = sent w ++ new ∧
     ∀ req, req ∈ new ->
       URL req = baseURL v +:+ "/api/validate/country" ∧
       req_body req =
         {[ "code" := JString (ToUpper code);
            "follow_upward" := JBool (FollowUpward copts) ]}) ∧
  (String.length country = 2%nat ->
   ∃ r w' new,
     ValidateSubdivision v ctx code country sopts w = Some (r, w') ∧
     sent w' = sent w ++ new ∧
     ∀ req, req ∈ new ->
       URL req = baseURL v +:+ "/api/validate/subdivision" ∧
       req_body req =
         {[ "code" := JString code;
            "country" := JString (ToUpper country);
            "follow_related" := JBool (FollowRelated sopts);
            "allow_parent_selection" := JBool (AllowParentSelection sopts) ]}).
Proof.
  split; intros Hlen.
  - unfold ValidateCountry. rewrite length_test_true by assumption. cbn [negb].
    match goal with
    | |- context [(x <~ post v ctx ?p ?pl ?o ;; ret (@?k x)) ?w1] =>
        destruct (post_then v ctx p pl o k w1) as (r & new & -> & Hnew)
    end.
    eexists _, _, new. split; [reflexivity |]. split; [reflexivity |].
    intros req Hin. rewrite Forall_forall in Hnew.
    destruct (Hnew req Hin) as (_ & -> & -> & _). split; [reflexivity |].
    apply country_body.
  - unfold ValidateSubdivision. rewrite length_test_true by assumption. cbn [negb].
    match goal with
    | |- context [(x <~ post v ctx ?p ?pl ?o ;; ret (@?k x)) ?w1] =>
        destruct (post_then v ctx p pl o k w1) as (r & new & -> & Hnew)
    end.
    eexists _, _, new. split; [reflexivity |]. split; [reflexivity |].
    intros req Hin. rewrite Forall_forall in Hnew.
    destruct (Hnew req Hin) as (_ & -> & -> & _). split; [reflexivity |].
    apply subdivision_body.
Qed.

(** *** What is returned *)

(** X15. [ValidateSubdivision] with a country of length 2, once its request
    has reached the client: a response with a status below 400 is returned
    as the decoder leaves it (the decoded result, and a nil error when the
    body decodes); a status of 400 or more and an error of the client are
    returned as an error beside the zero result.  The heap is not
    touched. *)
Theorem ValidateSubdivision_outcome v ctx code country opts w req :
  String.length country = 2%nat ->
  post_request v ctx "/api/validate/subdivision"
    {[ "code" := JString code;
       "country" := JString (ToUpper country);
       "follow_related" := JBool (FollowRelated opts);
       "allow_parent_selection" := JBool (AllowParentSelection opts) ]}
    = inl req ->
  ∃ w',
    sent w' = sent w ++ [req] ∧ heap w' = heap w ∧
    (∀ resp, httpClient v req = DoResponse resp ->
       (StatusCode resp < 400)%Z ->
       ValidateSubdivision v ctx code country opts w =
         Some (decode_ValidationResult (resp_Body resp) zero, w')) ∧
    (∀ resp, httpClient v req = DoResponse resp ->
       (400 <= StatusCode resp)%Z ->
       ∃ e, ValidateSubdivision v ctx code country opts w =
              Some ((zero, Some e), w')) ∧
    (∀ e, httpClient v req = DoError e ->
       ValidateSubdivision v ctx code country opts w = Some ((zero, Some e), w')).
Proof.
  intros Hlen Hreq. unfold ValidateSubdivision.
  rewrite length_test_true by assumption. cbn [negb].
  erewrite post_then_answered by (rewrite subdivision_body; exact Hreq).
  match goal with
  | |- context [Some (_, ?w1)] => exists w1
  end.
  split; [reflexivity |]. split; [reflexivity |]. split; [| split].
  - intros resp -> Hstatus. apply Z.leb_gt in Hstatus. rewrite Hstatus.
    unfold json_Decode, ValidationResult_Decodable. simpl.
    by destruct (decode_ValidationResult (resp_Body resp) zero).
  - intros resp -> Hstatus. apply Z.leb_le in Hstatus. rewrite Hstatus.
    eexists. reflexivity.
  - intros e ->. reflexivity.
Qed.

(** X16. [ValidateCountries] on codes that all have length 2, once its
    request has reached the client: a response with a status below 400 is
    returned as the results the decoder leaves in the batch envelope, in
    the order it leaves them, beside the decoder's error; a status of 400
    or more and an error of the client are returned as an error beside a
    nil slice. *)
Theorem ValidateCountries_outcome v ctx codes opts w req :
  elems_of (heap w) codes ≠ [] ->
  Forall (λ c, String.length c = 2%nat) (elems_of (heap w) codes) ->
  post_request v ctx "/api/validate/country"
    {[ "code" := JStrings (ToUpper <$> elems_of (heap w) codes);
       "follow_upward" := JBool false ]} = inl req ->
  ∃ w',
    sent w' = sent w ++ [req] ∧
    (∀ resp, httpClient v req = DoResponse resp ->
       (StatusCode resp < 400)%Z ->
       ValidateCountries v ctx codes opts w =
         Some ((Results (decode_multiResult (resp_Body resp) zero).1,
                (decode_multiResult (resp_Body resp) zero).2), w')) ∧
    (∀ resp, httpClient v req = DoResponse resp ->
       (400 <= StatusCode resp)%Z ->
       ∃ e, ValidateCountries v ctx codes opts w = Some ((NilSlice, Some e), w')) ∧
    (∀ e, httpClient v req = DoError e ->
       ValidateCountries v ctx codes opts w = Some ((NilSlice, Some e), w')).
Proof.
  intros Hne Hall Hreq.
  destruct (elems_of_nonempty (heap w) codes Hne) as (l & -> & Hheap).
  rewrite (ValidateCountries_through v ctx l opts _ w Hheap Hne Hall).
  erewrite post_then_answered.
  2:{ erewrite countries_body by (simpl; apply lookup_insert_eq).
      simpl in Hreq. rewrite Hheap in Hreq. exact Hreq. }
  match goal with
  | |- context [Some (_, ?w1)] => exists w1
  end.
  split; [reflexivity |]. split; [| split].
  - intros resp -> Hstatus. apply Z.leb_gt in Hstatus. rewrite Hstatus.
    reflexivity.
  - intros resp -> Hstatus. apply Z.leb_le in Hstatus. rewrite Hstatus.
    eexists. reflexivity.
  - intros e ->. reflexivity.
Qed.

(** X17. [ValidateSubdivisions] with a country of length 2 and a slice that
    is not empty, once its request has reached the client: a response with
    a status below 400 is returned as the results the decoder leaves in the
    batch envelope beside the decoder's error; a status of 400 or more and
    an error of the client are returned as an error beside a nil slice. *)
Theorem ValidateSubdivisions_outcome v ctx codes country opts w req :
  String.length country = 2%nat ->
  elems_of (heap w) codes ≠ [] ->
  post_request v ctx "/api/validate/subdivision"
    {[ "code" := JStrings (elems_of (heap w) codes);
       "country" := JString (ToUpper country);
       "follow_related" := JBool false;
       "allow_parent_selection" := JBool (AllowParentSelection opts) ]}
    = inl req ->
  ∃ w',
    sent w' = sent w ++ [req] ∧
    (∀ resp, httpClient v req = DoResponse resp ->
       (StatusCode resp < 400)%Z ->
       ValidateSubdivisions v ctx codes country opts w =
         Some ((Results (decode_multiResult (resp_Body resp) zero).1,
                (decode_multiResult (resp_Body resp) zero).2), w')) ∧
    (∀ resp, httpClient v req = DoResponse resp ->
       (400 <= StatusCode resp)%Z ->
       ∃ e, ValidateSubdivisions v ctx codes country opts w =
              Some ((NilSlice, Some e), w')) ∧
    (∀ e, httpClient v req = DoError e ->
       ValidateSubdivisions v ctx codes country opts w =
         Some ((NilSlice, Some e), w')).
Proof.
  intros Hlen Hne Hreq.
  destruct (elems_of_nonempty (heap w) codes Hne) as (l & -> & Hheap).
  rewrite (ValidateSubdivisions_through v ctx l country opts _ w Hlen Hheap Hne).
  erewrite post_then_answered.
  2:{ erewrite subdivisions_body by (simpl; apply lookup_insert_eq).
      simpl in Hreq. rewrite Hheap in Hreq. exact Hreq. }
  match goal with
  | |- context [Some (_, ?w1)] => exists w1
  end.
  split; [reflexivity |]. split; [| split].
  - intros resp -> Hstatus. apply Z.leb_gt in Hstatus. rewrite Hstatus.
    reflexivity.
  - intros resp -> Hstatus. apply Z.leb_le in Hstatus. rewrite Hstatus.
    eexists. reflexivity.
  - intros e ->. reflexivity.
Qed.

(** *** Bounds and frame *)

(** Every run of [ValidateCountries]: it ends, with the codes up to some
    index upper-cased and the rest of the world's arrays as they were. *)
Lemma ValidateCountries_run v ctx codes opts w :
  ∃ r w' done rest,
    ValidateCountries v ctx codes opts w = Some (r, w') ∧
    elems_of (heap w) codes = done ++ rest ∧
    elems_of (heap w') codes = (ToUpper <$> done) ++ rest ∧
    ∀ l, codes ≠ strs_at l -> heap w' !! l = heap w !! l.
Proof.
  destruct (decide (elems_of (heap w) codes = [])) as [Hnil | Hne].
  { rewrite ValidateCountries_empty by assumption.
    exists (Slice [], None), w, [], []. rewrite Hnil. auto. }
  destruct (elems_of_nonempty (heap w) codes Hne) as (l & -> & Hheap).
  destruct (decide (Forall (λ c, String.length c = 2%nat)
                      (elems_of (heap w) (strs_at l)))) as [Hall | Hbad].
  - rewrite (ValidateCountries_through v ctx l opts _ w Hheap Hne Hall).
    match goal with
    | |- context [(x <~ post v ctx ?p ?pl ?o ;; ret (@?k x)) ?w1] =>
        destruct (post_then v ctx p pl o k w1) as (r & new & -> & _)
    end.
    eexists _, _, (elems_of (heap w) (strs_at l)), [].
    split; [reflexivity |]. rewrite !app_nil_r. split; [reflexivity |].
    simpl. split.
    + rewrite lookup_insert_eq, Hheap. reflexivity.
    + intros l' Hl'. apply lookup_insert_ne. congruence.
  - apply not_Forall_Exists in Hbad; [| apply _].
    destruct (first_failure (λ c, String.length c = 2%nat) _ Hbad)
      as (good & bad & rest & Hsplit & Hgood & Hlen).
    rewrite Hsplit in Hheap.
    rewrite (ValidateCountries_stops v ctx l opts good bad rest w) by assumption.
    eexists _, _, good, (bad :: rest). split; [reflexivity |].
    split; [assumption |]. simpl. split.
    + rewrite lookup_insert_eq. reflexivity.
    + intros l' Hl'. apply lookup_insert_ne. congruence.
Qed.

(** X18. The loops of the batch methods stay within bounds, whatever the
    slice (nil, empty, or of any length) and the heap: the loop of
    [ValidateCountries], which reads each code and writes it back
    upper-cased, and the loop of [ValidateSubdivisions], which writes each
    code into the slice made with [len(codes)] just before, never index
    out of range. *)
Theorem batch_loops_in_bounds codes w :
  is_Some
    (for_range codes (fun i code =>
       if negb (String.length code =? 2)%nat
       then ret (Some (@NilSlice ValidationResult, Some ErrCountryFormat))
       else _ <~ store codes i (ToUpper code) ;; ret None) w) ∧
  is_Some
    ((payloadCodes <~ make (length (elems_of (heap w) codes)) ;;
      for_range (R := unit) codes (fun i code =>
        if String.eqb code ""
        then _ <~ store payloadCodes i "" ;; ret None
        else _ <~ store payloadCodes i code ;; ret None)) w).
Proof.
  split.
  - rewrite for_range_run.
    destruct (decide (elems_of (heap w) codes = [])) as [Hnil | Hne].
    { rewrite Hnil. by eexists. }
    destruct (elems_of_nonempty (heap w) codes Hne) as (l & -> & Hheap).
    destruct (decide (Forall (λ c, String.length c = 2%nat)
                        (elems_of (heap w) (strs_at l)))) as [Hall | Hbad].
    + pose proof (upper_loop_through l _ [] w Hheap Hall) as Hloop.
      change (length (@nil string)) with 0%nat in Hloop. rewrite Hloop.
      by eexists.
    + apply not_Forall_Exists in Hbad; [| apply _].
      destruct (first_failure (λ c, String.length c = 2%nat) _ Hbad)
        as (good & bad & rest & Hsplit & Hgood & Hlen).
      rewrite Hsplit. rewrite Hsplit in Hheap.
      pose proof (upper_loop_stops l good [] bad rest w Hheap Hgood Hlen) as Hloop.
      change (length (@nil string)) with 0%nat in Hloop. rewrite Hloop.
      by eexists.
  - erewrite bind_run by reflexivity. rewrite for_range_run.
    set (l' := fresh (dom (heap w))).
    assert (Hfresh : heap w !! l' = None).
    { apply not_elem_of_dom. apply is_fresh. }
    destruct (decide (elems_of (heap w) codes = [])) as [Hnil | Hne].
    + rewrite Hnil.
      replace (elems_of (heap (with_heap (<[l' := replicate (length (@nil string)) ""]>
                                          (heap w)) w)) codes)
        with (@nil string); [by eexists |].
      destruct codes as [|l]; [reflexivity |]. simpl in *.
      destruct (decide (l' = l)) as [<- | Hll].
      * rewrite lookup_insert_eq. reflexivity.
      * rewrite lookup_insert_ne by assumption. now rewrite Hnil.
    + destruct (elems_of_nonempty (heap w) codes Hne) as (l & -> & Hheap).
      assert (Hll : l ≠ l') by (intros ->; congruence).
      set (xs := elems_of (heap w) (strs_at l)) in *.
      replace (elems_of (heap (with_heap (<[l' := replicate (length xs) ""]>
                                          (heap w)) w)) (strs_at l))
        with xs
        by (simpl; rewrite lookup_insert_ne by congruence; now rewrite Hheap).
      rewrite (copy_loop l l' xs [] (replicate (length xs) "")).
      * by eexists.
      * assumption.
      * simpl. rewrite lookup_insert_ne by congruence. assumption.
      * simpl. rewrite lookup_insert_eq. reflexivity.
      * apply length_replicate.
Qed.

(** X19. [ValidateCountries] changes nothing but the case of the caller's
    codes: after any run the caller's slice has the same number of codes,
    each of them either as it was or upper-cased, and every other array of
    the heap is as it was. *)
Theorem ValidateCountries_changes_case_only v ctx codes opts w r w' :
  ValidateCountries v ctx codes opts w = Some (r, w') ->
  Forall2 (λ before after, after = before ∨ after = ToUpper before)
    (elems_of (heap w) codes) (elems_of (heap w') codes) ∧
  ∀ l, codes ≠ strs_at l -> heap w' !! l = heap w !! l.
Proof.
  intros Hrun.
  destruct (ValidateCountries_run v ctx codes opts w)
    as (r0 & w0 & done & rest & Hrun0 & Hbefore & Hafter & Hframe).
  rewrite Hrun in Hrun0. injection Hrun0 as <- <-.
  split; [| assumption].
  rewrite Hbefore, Hafter. apply Forall2_app.
  - apply Forall2_fmap_r. apply Forall_Forall2_diag.
    apply Forall_forall. auto.
  - apply Forall_Forall2_diag. apply Forall_forall. auto.
Qed.

(** X20. Calling [ValidateCountries] again on the slice it has rewritten
    rewrites nothing: after a first call on ASCII codes of length 2, a
    second call on the same slice leaves the heap as the first call left
    it, the codes being the upper-cased codes of the first call. *)
Theorem ValidateCountries_again v ctx codes opts w r1 w1 :
  elems_of (heap w) codes ≠ [] ->
  Forall (λ c, String.length c = 2%nat ∧ isASCII c = true)
    (elems_of (heap w) codes) ->
  ValidateCountries v ctx codes opts w = Some (r1, w1) ->
  ∃ r2 w2,
    ValidateCountries v ctx codes opts w1 = Some (r2, w2) ∧
    heap w2 = heap w1 ∧
    elems_of (heap w2) codes = ToUpper <$> elems_of (heap w) codes.
Proof.
  intros Hne Hall Hrun.
  destruct (elems_of_nonempty (heap w) codes Hne) as (l & -> & Hheap).
  set (xs := elems_of (heap w) (strs_at l)) in *.
  assert (Hlen : Forall (λ c, String.length c = 2%nat) xs).
  { eapply Forall_impl; [exact Hall | by intros c [? _]]. }
  rewrite (ValidateCountries_through v ctx l opts xs w Hheap Hne Hlen) in Hrun.
  match type of Hrun with
  | (x <~ post v ctx ?p ?pl ?o ;; ret (@?k x)) ?w0 = _ =>
      destruct (post_then v ctx p pl o k w0) as (r & new & Hrun1 & _)
  end.
  rewrite Hrun1 in Hrun. injection Hrun as <- <-. clear Hrun1.
  assert (Hupper : ToUpper <$> (ToUpper <$> xs) = ToUpper <$> xs).
  { rewrite <- list_fmap_compose. apply Forall_fmap_ext_1.
    eapply Forall_impl; [exact Hall |].
    intros c [_ Hc]. simpl. now apply ToUpper_ascii_idem. }
  assert (Hlen' : Forall (λ c, String.length c = 2%nat) (ToUpper <$> xs)).
  { apply Forall_fmap. eapply Forall_impl; [exact Hall |].
    intros c [Hc Ha]. simpl. now rewrite ToUpper_ascii_length. }
  assert (Hne' : ToUpper <$> xs ≠ []).
  { intros Hnil. apply fmap_nil_inv in Hnil. contradiction. }
  match goal with
  | |- context [ValidateCountries v ctx (strs_at l) opts ?w1] =>
      rewrite (ValidateCountries_through v ctx l opts (ToUpper <$> xs) w1)
        by (try assumption; simpl; apply lookup_insert_eq)
  end.
  match goal with
  | |- context [(x <~ post v ctx ?p ?pl ?o ;; ret (@?k x)) ?w1] =>
      destruct (post_then v ctx p pl o k w1) as (r2 & new2 & -> & _)
  end.
  eexists _, _. split; [reflexivity |]. simpl.
  rewrite Hupper, insert_insert_eq. split; [reflexivity |].
  rewrite lookup_insert_eq. reflexivity.
Qed.

End Methods.

(** ** A constructed validator at work *)

Section Composition.

Context `{rt : GoRuntime} `{lib : GoLibrary}.

Lemma defaultBaseURL_no_slash : ¬ ends_with defaultBaseURL "/".
Proof.
  destruct (trimRightByte_split defaultBaseURL "/"%char) as (_ & _ & Hend).
  exact Hend.
Qed.

(** X21. The requests of a validator made by [NewValidator] with options of
    this package: each carries [Authorization: Bearer] followed by the key
    as it was given to the constructor, and goes to a base followed by the
    path, where the base does not end with a slash and is the default
    "https://api.countriesdb.com" or the value of a [WithBaseURL] option
    that is not empty, without its trailing slashes. *)
Theorem NewValidator_requests {T} `{Decodable T} key opts v ctx path payload
    (out : option T) w :
  Forall package_option opts ->
  NewValidator key opts = inl v ->
  ∃ r w' new,
    post v ctx path payload out w = Some (r, w') ∧
    sent w' = sent w ++ new ∧
    ∀ req, req ∈ new ->
      Header req !! "Authorization" = Some ("Bearer " +:+ key) ∧
      ∃ base, URL req = base +:+ path ∧ ¬ ends_with base "/" ∧
              (base = "https://api.countriesdb.com" ∨
               ∃ given, WithBaseURL given ∈ opts ∧ given ≠ EmptyString ∧
                        base = trimRightByte given "/"%char).
Proof.
  intros Hopts Hnew.
  assert (Hfields : apiKey v = key ∧
            (baseURL v = defaultBaseURL ∨
             ∃ given, WithBaseURL given ∈ opts ∧ given ≠ EmptyString ∧
                      baseURL v = trimRightByte given "/"%char)).
  { revert Hnew. unfold NewValidator.
    destruct (String.eqb (TrimSpace key) ""); [discriminate |].
    intros [= <-]. exact (package_options_fold opts _ Hopts). }
  destruct Hfields as [Hkey Hbase].
  destruct (post_world v ctx path payload out w) as (r & new & Hrun & _ & Hreqs).
  eexists r, _, new. split; [exact Hrun |]. split; [reflexivity |].
  intros req Hin. rewrite Forall_forall in Hreqs.
  destruct (Hreqs req Hin) as (_ & Hurl & _ & _ & Hauth).
  rewrite Hauth, Hkey. split; [reflexivity |].
  exists (baseURL v). split; [assumption |].
  destruct Hbase as [Hdefault | (given & Hin' & Hne & Hset)].
  - rewrite Hdefault. split; [apply defaultBaseURL_no_slash | by left].
  - split.
    + rewrite Hset.
      destruct (trimRightByte_split given "/"%char) as (_ & _ & Hend). exact Hend.
    + right. exists given. auto.
Qed.

End Composition.

(** ** Closed instances of the further properties *)

#[local] Existing Instance sample_library.

Lemma NewValidator_blank_key_witness :
  NewValidator "  " [WithBaseURL "https://example.test"] =
    inr "countriesdb: api key is required" ∧
  ∃ v, NewValidator " k " [WithHTTPClient None] = inl v ∧ apiKey v = " k ".
Proof.
  split.
  - apply (NewValidator_blank_key "  " [WithBaseURL "https://example.test"]);
      reflexivity.
  - apply (NewValidator_blank_key " k " [WithHTTPClient None]);
      [reflexivity | reflexivity |].
    constructor; [right; eexists; reflexivity | constructor].
Defined.

Lemma NewValidator_fields_witness :
  ∃ v, NewValidator " k " [WithBaseURL "https://example.test//";
                           WithHTTPClient None] = inl v ∧
       apiKey v = " k ".
Proof.
  eexists. split; [reflexivity |].
  eapply (NewValidator_fields " k "
            [WithBaseURL "https://example.test//"; WithHTTPClient None]).
  - constructor; [left; eexists; reflexivity |].
    constructor; [right; eexists; reflexivity | constructor].
  - reflexivity.
Defined.

Lemma WithBaseURL_trims_witness :
  baseURL (WithBaseURL "https://example.test//" offline_validator) =
    "https://example.test" ∧
  ¬ ends_with (baseURL (WithBaseURL "https://example.test//" offline_validator)) "/".
Proof.
  split; [reflexivity |].
  apply (WithBaseURL_trims "https://example.test//" offline_validator).
  discriminate.
Defined.

Lemma options_order_witness :
  WithBaseURL "https://b.test/" (WithBaseURL "https://a.test" offline_validator) =
  WithBaseURL "https://b.test/" offline_validator.
Proof.
  apply (options_order offline_validator "" "https://a.test" "https://b.test/"
           None None (httpClient offline_validator)).
  discriminate.
Defined.

Lemma post_request_not_made_witness :
  ∃ w', post offline_validator nilContext "/api/validate/country"
          {[ "code" := PString "US" ]} (Some (zero : ValidationResult))
          (sample_world []) =
          Some ((Some zero, Some "net/http: nil Context"), w') ∧
        sent w' = [].
Proof.
  exact (proj1 (post_request_not_made offline_validator nilContext
                  "/api/validate/country" {[ "code" := PString "US" ]}
                  (Some (zero : ValidationResult)) (sample_world []))
           eq_refl).
Defined.

Lemma post_client_error_witness :
  ∃ w', post offline_validator (Ctx None) "/api/validate/country"
          {[ "code" := PString "US" ]} (Some (zero : ValidationResult))
          (sample_world []) =
          Some ((Some zero, Some "dial tcp: connection refused"), w') ∧
        length (sent w') = 1%nat.
Proof.
  edestruct (post_client_error offline_validator (Ctx None)
               "/api/validate/country" {[ "code" := PString "US" ]}
               (Some (zero : ValidationResult)) (sample_world []))
    as (w' & Hrun & Hsent).
  - vm_compute. reflexivity.
  - reflexivity.
  - exists w'. split; [exact Hrun |]. rewrite Hsent. reflexivity.
Defined.

Lemma post_status_below_400_witness :
  ∃ w', post (sample_validator 204 sample_empty_body) (Ctx None)
          "/api/validate/country" {[ "code" := PString "US" ]}
          (@None ValidationResult) (sample_world []) =
          Some ((None, None), w').
Proof.
  edestruct (post_status_below_400 (T := ValidationResult)
               (sample_validator 204 sample_empty_body) (Ctx None)
               "/api/validate/country" {[ "code" := PString "US" ]}
               (sample_world []))
    as [Hnil _].
  - vm_compute. reflexivity.
  - reflexivity.
  - simpl. lia.
  - exact Hnil.
Defined.

Lemma generic_error_carries_status_witness :
  ∃ numeral w',
    post (sample_validator 503 sample_empty_body) (Ctx None)
      "/api/validate/country" {[ "code" := PString "US" ]}
      (Some (zero : ValidationResult)) (sample_world []) =
      Some ((Some zero, Some ("countriesdb: http " +:+ numeral)), w') ∧
    option_map Z.of_int (NilZero.int_of_string numeral) = Some 503%Z.
Proof.
  eapply (generic_error_carries_status (sample_validator 503 sample_empty_body)
            (Ctx None) "/api/validate/country" {[ "code" := PString "US" ]}
            (Some (zero : ValidationResult)) (sample_world []) _
            {| StatusCode := 503; resp_Body := sample_empty_body |}).
  - vm_compute. reflexivity.
  - reflexivity.
  - simpl. lia.
  - left. discriminate.
Defined.

Lemma ValidateCountries_request_witness :
  ∃ r w' new,
    ValidateCountries (sample_validator 200 sample_batch_body) (Ctx None)
      (strs_at 0) {| FollowUpward := true |} (sample_world ["us"; "ca"]) =
      Some (r, w') ∧
    sent w' = new ∧
    ∀ req, req ∈ new ->
      URL req = "https://api.countriesdb.com/api/validate/country" ∧
      req_body req =
        {[ "code" := JStrings ["US"; "CA"]; "follow_upward" := JBool false ]}.
Proof.
  apply (ValidateCountries_request (sample_validator 200 sample_batch_body)
           (Ctx None) (strs_at 0) {| FollowUpward := true |}
           (sample_world ["us"; "ca"])).
  - vm_compute. discriminate.
  - vm_compute. repeat constructor.
Defined.

Lemma ValidateSubdivisions_request_witness :
  ∃ r w' new,
    ValidateSubdivisions (sample_validator 200 sample_batch_body) (Ctx None)
      (strs_at 0) "us" {| FollowRelated := true; AllowParentSelection := true |}
      (sample_world ["us-ca"; ""]) = Some (r, w') ∧
    sent w' = new ∧
    ∀ req, req ∈ new ->
      URL req = "https://api.countriesdb.com/api/validate/subdivision" ∧
      req_body req =
        {[ "code" := JStrings ["us-ca"; ""];
           "country" := JString "US";
           "follow_related" := JBool false;
           "allow_parent_selection" := JBool true ]}.
Proof.
  apply (ValidateSubdivisions_request (sample_validator 200 sample_batch_body)
           (Ctx None) (strs_at 0) "us"
           {| FollowRelated := true; AllowParentSelection := true |}
           (sample_world ["us-ca"; ""])).
  - reflexivity.
  - vm_compute. discriminate.
Defined.

Lemma single_code_requests_witness :
  ∃ r w' new,
    ValidateSubdivision (sample_validator 200 sample_valid_body) (Ctx None)
      "us-ca" "us" {| FollowRelated := true; AllowParentSelection := false |}
      (sample_world []) = Some (r, w') ∧
    sent w' = new ∧
    ∀ req, req ∈ new ->
      URL req = "https://api.countriesdb.com/api/validate/subdivision" ∧
      req_body req =
        {[ "code" := JString "us-ca";
           "country" := JString "US";
           "follow_related" := JBool true;
           "allow_parent_selection" := JBool false ]}.
Proof.
  exact (proj2 (single_code_requests (sample_validator 200 sample_valid_body)
                  (Ctx None) "us-ca" "us" {| FollowUpward := true |}
                  {| FollowRelated := true; AllowParentSelection := false |}
                  (sample_world []))
           eq_refl).
Defined.

Lemma ValidateSubdivision_outcome_witness :
  ∃ w',
    ValidateSubdivision (sample_validator 404 sample_error_body) (Ctx None)
      "US-CA" "us" {| FollowRelated := false; AllowParentSelection := false |}
      (sample_world []) =
    Some ((zero, Some "not found"), w').
Proof.
  edestruct (ValidateSubdivision_outcome (sample_validator 404 sample_error_body)
               (Ctx None) "US-CA" "us"
               {| FollowRelated := false; AllowParentSelection := false |}
               (sample_world []))
    as (w' & _ & _ & _ & Herr & _).
  - reflexivity.
  - vm_compute. reflexivity.
  - exists w'.
    destruct (Herr {| StatusCode := 404; resp_Body := sample_error_body |})
      as (e & Hrun); [reflexivity | simpl; lia |].
    rewrite Hrun. vm_compute in Hrun.
    injection Hrun as <- _. reflexivity.
Defined.

Lemma ValidateCountries_outcome_witness :
  ∃ w',
    ValidateCountries (sample_validator 200 sample_batch_body) (Ctx None)
      (strs_at 0) {| FollowUpward := false |} (sample_world ["us"; "zz"]) =
    Some ((Slice [ {| Valid := true; Message := ""; Code := "US" |};
                   {| Valid := false; Message := "unknown"; Code := "ZZ" |} ],
           None), w').
Proof.
  edestruct (ValidateCountries_outcome (sample_validator 200 sample_batch_body)
               (Ctx None) (strs_at 0) {| FollowUpward := false |}
               (sample_world ["us"; "zz"]))
    as (w' & _ & Hok & _ & _).
  - vm_compute. discriminate.
  - vm_compute. repeat constructor.
  - vm_compute. reflexivity.
  - exists w'.
    apply (Hok {| StatusCode := 200; resp_Body := sample_batch_body |});
      [reflexivity | simpl; lia].
Defined.

Lemma ValidateSubdivisions_outcome_witness :
  ∃ w',
    ValidateSubdivisions offline_validator (Ctx None) (strs_at 0) "us"
      {| FollowRelated := false; AllowParentSelection := false |}
      (sample_world ["US-CA"]) =
    Some ((NilSlice, Some "dial tcp: connection refused"), w').
Proof.
  edestruct (ValidateSubdivisions_outcome offline_validator (Ctx None) (strs_at 0)
               "us" {| FollowRelated := false; AllowParentSelection := false |}
               (sample_world ["US-CA"]))
    as (w' & _ & _ & _ & Hoff).
  - reflexivity.
  - vm_compute. discriminate.
  - vm_compute. reflexivity.
  - exists w'. apply Hoff. reflexivity.
Defined.

Lemma ValidateCountries_changes_case_only_witness :
  ∃ w',
    Forall2 (λ before after, after = before ∨ after = ToUpper before)
      ["us"; "BAD1"; "ca"] (elems_of (heap w') (strs_at 0)).
Proof.
  destruct (ValidateCountries offline_validator (Ctx None) (strs_at 0)
              {| FollowUpward := false |} (sample_world ["us"; "BAD1"; "ca"]))
    as [[r w']|] eqn:Hrun; [| vm_compute in Hrun; discriminate Hrun].
  exists w'.
  exact (proj1 (ValidateCountries_changes_case_only offline_validator (Ctx None)
                  (strs_at 0) {| FollowUpward := false |}
                  (sample_world ["us"; "BAD1"; "ca"]) r w' Hrun)).
Defined.

Lemma ValidateCountries_again_witness :
  ∃ r1 w1 r2 w2,
    ValidateCountries (sample_validator 200 sample_batch_body) (Ctx None)
      (strs_at 0) {| FollowUpward := false |} (sample_world ["us"; "ca"]) =
      Some (r1, w1) ∧
    ValidateCountries (sample_validator 200 sample_batch_body) (Ctx None)
      (strs_at 0) {| FollowUpward := false |} w1 = Some (r2, w2) ∧
    heap w2 = heap w1 ∧
    elems_of (heap w2) (strs_at 0) = ["US"; "CA"].
Proof.
  destruct (ValidateCountries (sample_validator 200 sample_batch_body) (Ctx None)
              (strs_at 0) {| FollowUpward := false |} (sample_world ["us"; "ca"]))
    as [[r1 w1]|] eqn:Hrun; [| vm_compute in Hrun; discriminate Hrun].
  destruct (ValidateCountries_again (sample_validator 200 sample_batch_body)
              (Ctx None) (strs_at 0) {| FollowUpward := false |}
              (sample_world ["us"; "ca"]) r1 w1)
    as (r2 & w2 & Hrun2 & Hheap & Helems).
  - vm_compute. discriminate.
  - vm_compute. repeat constructor.
  - exact Hrun.
  - exists r1, w1, r2, w2. auto.
Defined.

Lemma NewValidator_requests_witness :
  ∃ v r w' new,
    NewValidator " k " [WithBaseURL "https://example.test//"] = inl v ∧
    post v (Ctx None) "/api/validate/country" {[ "code" := PString "US" ]}
      (Some (zero : ValidationResult)) (sample_world []) = Some (r, w') ∧
    sent w' = new ∧
    ∀ req, req ∈ new ->
      Header req !! "Authorization" = Some "Bearer  k ".
Proof.
  exists {| apiKey := " k "; baseURL := "https://example.test";
            httpClient := http_Client_Do (10 * Second) |}.
  edestruct (NewValidator_requests (T := ValidationResult) " k "
               [WithBaseURL "https://example.test//"]
               {| apiKey := " k "; baseURL := "https://example.test";
                  httpClient := http_Client_Do (10 * Second) |}
               (Ctx None) "/api/validate/country" {[ "code" := PString "US" ]}
               (Some zero) (sample_world []))
    as (r & w' & new & Hrun & Hsent & Hreqs).
  - constructor; [left; eexists; reflexivity | constructor].
  - reflexivity.
  - exists r, w', new. split; [reflexivity |]. split; [exact Hrun |].
    split; [exact Hsent |].
    intros req Hin. destruct (Hreqs req Hin) as [Hauth _]. exact Hauth.
Defined.

Lemma post_sends_one_request_witness :
  ∃ r w' req,
    post (sample_validator 200 sample_valid_body) (Ctx None)
      "/api/validate/country" {[ "code" := PString "US" ]}
      (Some (zero : ValidationResult)) (sample_world ["us"]) = Some (r, w') ∧
    heap w' = {[ 0%nat := ["us"] ]} ∧
    sent w' = [req] ∧
    Method req = "POST" ∧
    URL req = "https://api.countriesdb.com/api/validate/country" ∧
    Header req = {[ "Content-Type" := "application/json";
                    "Authorization" := "Bearer key" ]}.
Proof.
  destruct (post (sample_validator 200 sample_valid_body) (Ctx None)
              "/api/validate/country" {[ "code" := PString "US" ]}
              (Some (zero : ValidationResult)) (sample_world ["us"]))
    as [[r w']|] eqn:Hrun; [| vm_compute in Hrun; discriminate Hrun].
  destruct (post_sends_one_request (sample_validator 200 sample_valid_body)
              (Ctx None) "/api/validate/country" {[ "code" := PString "US" ]}
              (Some (zero : ValidationResult)) (sample_world ["us"]) r w' Hrun)
    as (Hheap & new & Hsent & Hlen & Hreqs).
  assert (Hone : length (sent w') = 1%nat).
  { vm_compute in Hrun. injection Hrun as _ <-. reflexivity. }
  rewrite Hsent in Hone. simpl in Hone.
  destruct new as [|req [|req' new]]; simpl in Hone; try discriminate Hone.
  exists r, w', req. split; [reflexivity |]. split; [exact Hheap |].
  split; [exact Hsent |].
  destruct (Hreqs req) as (_ & Hm & Hu & Hh & _); [apply list_elem_of_here |].
  split; [exact Hm |]. split; [exact Hu | exact Hh].
Defined.
